(** * pyrad.proc.process_spectra.process_spectra_point

    A shallow embedding of [process_spectra_point]
    (src/pyrad_proc/pyrad/proc/process_spectra.py, lines 79-398): extraction
    of the spectral data of one fixed point of interest out of successive
    scans, accumulated into one growing time series.

    Conventions of the embedding.
    - Python floats are modelled by exact rationals [Q]; the transcendental
      library functions ([np.sqrt], [np.cos], [np.sin], [np.pi]) and the
      pyart coordinate conversions are parameters of the development.
    - A numpy (masked) array cell is an [option Q], [None] being a masked
      cell.
    - A raised Python exception ends the call: results live in [res].
    - The configuration dictionary [dscfg] is split into its read-only keys
      ([Dscfg]) and the two keys the function writes ([RunState]). *)

From Stdlib Require Import QArith Qabs ZArith Lia Lqa.
From stdpp Require Import gmap strings list fin_maps.

(** ** Exceptions and results *)

Inductive exn : Type :=
| NameError    (* an unbound local variable is read *)
| KeyError     (* a dictionary key is absent *)
| ValueError   (* empty reduction, reshape or broadcast mismatch *)
| IndexError   (* index out of bounds *)
| TypeError.   (* subscript of None *)

Inductive res (A : Type) : Type :=
| Ok (a : A)
| Raise (e : exn).
Arguments Ok {A} a.
Arguments Raise {A} e.

Global Instance res_ret : MRet res := λ A a, Ok a.
Global Instance res_bind : MBind res := λ A B f m,
  match m with
  | Ok a => f a
  | Raise e => Raise e
  end.

(** [d[key]] on a dictionary whose key may be absent. *)
Definition getitem {A} (o : option A) : res A :=
  match o with
  | Some a => Ok a
  | None => Raise KeyError
  end.

(** Reading a local variable that is bound on some paths only. *)
Definition local {A} (o : option A) : res A :=
  match o with
  | Some a => Ok a
  | None => Raise NameError
  end.

(** [a[i]] on a one-dimensional array. *)
Definition index {A} (l : list A) (i : nat) : res A :=
  match l !! i with
  | Some a => Ok a
  | None => Raise IndexError
  end.

(** ** numpy on one-dimensional float arrays *)

Definition Qltb (x y : Q) : bool := negb (Qle_bool y x).
Definition Qgtb (x y : Q) : bool := negb (Qle_bool x y).

Definition np_sub (a : list Q) (v : Q) : list Q := map (λ x, x - v)%Q a.
Definition np_abs (a : list Q) : list Q := map Qabs a.

(** [a + b] with numpy broadcasting of one-dimensional arrays. *)
Definition np_add (a b : list Q) : res (list Q) :=
  if decide (length a = length b) then Ok (zip_with Qplus a b)
  else match a, b with
       | _, [y] => Ok (map (λ x, x + y)%Q a)
       | [x], _ => Ok (map (λ y, x + y)%Q b)
       | _, _ => Raise ValueError
       end.

Fixpoint min_from (best : Q) (l : list Q) : Q :=
  match l with
  | [] => best
  | x :: t => min_from (if Qltb x best then x else best) t
  end.

(** [np.min]: raises on an empty array. *)
Definition np_min (l : list Q) : res Q :=
  match l with
  | [] => Raise ValueError
  | x :: t => Ok (min_from x t)
  end.

Fixpoint argmin_from (best : Q) (ibest i : nat) (l : list Q) : nat :=
  match l with
  | [] => ibest
  | x :: t =>
      if Qltb x best then argmin_from x i (S i) t
      else argmin_from best ibest (S i) t
  end.

(** [np.argmin]: index of the first occurrence of the minimum; raises on
    an empty array. *)
Definition np_argmin (l : list Q) : res nat :=
  match l with
  | [] => Raise ValueError
  | x :: t => Ok (argmin_from x 0 1 t)
  end.

(** ** Masked arrays *)

(** A cell of a masked array: [None] is a masked cell. *)
Abbreviation cell := (option Q).
(** One spectrum: the pulse axis. *)
Abbreviation row := (list cell).
(** [ray, pulse] array. In the accumulated record the field arrays have
    shape [(nrays, 1, npulses_max)]: the gate axis has length 1 throughout
    (every array written there is shaped [(_, 1, _)]) and is left implicit. *)
Abbreviation arr := (list row).

Definition masked_all_row (w : nat) : row := replicate w None.
Definition masked_all (n w : nat) : arr := replicate n (masked_all_row w).

(** [np.size]. *)
Definition np_size (a : arr) : nat := sum_list (length <$> a).

Definition rowlen_eqb (w : nat) (r : row) : bool := Nat.eqb (length r) w.

(** [x.reshape(1, 1, w)] of a one-row array: the sizes must agree. *)
Definition reshape_row (w : nat) (r : row) : res row :=
  if rowlen_eqb w r then Ok r else Raise ValueError.

(** [np.ma.append(a, b, axis=0)]: the trailing dimensions must agree. *)
Definition ma_append (a b : arr) : res arr :=
  match a with
  | [] => Raise ValueError
  | r :: _ =>
      if forallb (rowlen_eqb (length r)) (a ++ b) then Ok (a ++ b)
      else Raise ValueError
  end.

(** Broadcasting of [l] along an axis of length [n]. *)
Definition bcast {A} (n : nat) (l : list A) : res (list A) :=
  if decide (length l = n) then Ok l
  else match l with
       | [x] => Ok (replicate n x)
       | _ => Raise ValueError
       end.

(** [dst[0:k] = src] on one row. *)
Definition assign_prefix (dst : row) (k : nat) (src : row) : res row :=
  let k' := Nat.min k (length dst) in
  v ← bcast k' src;
  Ok (v ++ drop k' dst).

(** A loop over a list whose body may raise. *)
Fixpoint for_each {A B} (f : A → res B) (l : list A) : res (list B) :=
  match l with
  | [] => Ok []
  | x :: t => y ← f x; ys ← for_each f t; Ok (y :: ys)
  end.

(** [dst[0:n, :, 0:k] = src]. *)
Definition assign_block (dst : arr) (n k : nat) (src : arr) : res arr :=
  let n' := Nat.min n (length dst) in
  rows ← bcast n' src;
  top ← for_each (λ '(d, s), assign_prefix d k s) (zip (take n' dst) rows);
  Ok (top ++ drop n' dst).

(** [dst[i, :, :] = src], [src] holding one row. *)
Definition assign_row (dst : arr) (i : nat) (src : row) : res arr :=
  d ← index dst i;
  v ← bcast (length d) src;
  Ok (<[i:=v]> dst).

(** ** The objects of the call *)

(** A 32-bit signed numpy integer: arithmetic wraps around. *)
Definition int32 (z : Z) : Z := ((z + 2 ^ 31) mod 2 ^ 32 - 2 ^ 31)%Z.

(** The incoming scan [psr = radar_list[ind_rad]]: the attributes of the
    spectra object the function reads. *)
Module psr.
Record t : Type := mk {
    longitude : Q;                          (* longitude['data'] *)
    latitude : Q;
    altitude : Q;
    azimuth : list Q;                       (* per ray *)
    elevation : list Q;                     (* per ray *)
    range : list Q;                         (* range axis *)
    time : list Q;                          (* per ray, in time_units *)
    time_units : Q;                         (* epoch of time['units'] *)
    npulses_max : nat;
    fields : gmap string (list (list row)); (* name -> [ray, range, pulse] *)
    Doppler_velocity : option arr;          (* [ray, pulse] or None *)
    Doppler_frequency : option arr;
    gate_longitude : list (list Q);
    gate_latitude : list (list Q);
    gate_altitude : list (list Q)
  }.
End psr.

(** The accumulated record [psr_poi]: the attributes the function writes
    or reads back. *)
Module poi.
Record t : Type := mk {
    range : list Q;
    ngates : nat;
    nsweeps : nat;
    time : list Q;
    time_units : Q;
    fixed_angle : list Q;
    sweep_end_ray_index : Z;                (* int32 array of one entry *)
    rays_per_sweep : Z;                     (* int32 array of one entry *)
    azimuth : list Q;
    elevation : list Q;
    nrays : nat;
    npulses_max : nat;
    fields : gmap string arr;               (* name -> [row, (1,) pulse] *)
    Doppler_velocity : option arr;
    Doppler_frequency : option arr;
    gate_longitude : list (list Q);
    gate_latitude : list (list Q);
    gate_altitude : list (list Q)
  }.
End poi.

(** The keys of [dscfg] the function reads. A descriptor of ['datatype']
    is kept as parsed by [get_datatype_fields] and [get_fieldname_pyart]:
    the radar index [int(radarnr[5:8])-1] and the field name. *)
Record Dscfg : Type := {
  datatype : list (nat * string);
  truealt : option bool;
  latlon : option bool;
  lon : option Q;
  lat : option Q;
  alt : option Q;
  ele : option Q;
  azi : option Q;
  rng : option Q;
  AziTol : option Q;
  EleTol : option Q;
  RngTol : option Q;
  latlonTol : option Q;
  altTol : option Q
}.

(** [dscfg['global_data']]. *)
Record GlobalData : Type := {
  psr_poi : poi.t;
  point_coordinates_WGS84_lon_lat_alt : Q * Q * Q;
  antenna_coordinates_az_el_r : Q * Q * Q
}.

(** The keys of [dscfg] the function writes. *)
Record RunState : Type := {
  initialized : nat;
  global_data : option GlobalData
}.

(** The state of a run before its first call. *)
Definition idle : RunState := {| initialized := 0; global_data := None |}.

Inductive Warning : Type :=
| NoValidPsr
| NoBinAzimuth (d_az : Q)
| NoBinElevation (d_el : Q)
| NoBinRange (d_r : Q)
| FieldNotInPsr (field_name : string).

(** The dictionary [new_dataset]. *)
Record Dataset : Type := {
  radar_out : poi.t;
  out_point_coordinates_WGS84_lon_lat_alt : Q * Q * Q;
  out_antenna_coordinates_az_el_r : Q * Q * Q;
  final : bool
}.

(** What a call that does not raise hands back: the returned pair and the
    warnings it issued. *)
Record Output : Type := {
  new_dataset : option Dataset;
  ind_rad : option nat;
  warnings : list Warning
}.

Definition nothing (ws : list Warning) : Output :=
  {| new_dataset := None; ind_rad := None; warnings := ws |}.

(** The local variables bound by the two branches of lines 171-210. The
    tolerances are bound by the antenna branch only. *)
Record Locals : Type := {
  r : Q; az : Q; el : Q;
  l_lon : Q; l_lat : Q; l_alt : Q;
  azi_tol : option Q; ele_tol : option Q; rng_tol : option Q
}.

(** ** The function *)

Section ProcessSpectraPoint.

(** Library functions on floats, and the pyart conversions
    ([pyart.core.geographic_to_cartesian] with the [aeqd] projection
    centred on [(lon_0, lat_0)], and so on). *)
Variable np_pi : Q.
Variables np_sqrt np_cos np_sin : Q → Q.
Variable geographic_to_cartesian : Q → Q → Q → Q → Q * Q.
Variable cartesian_to_antenna : Q → Q → Q → Q * Q * Q.
Variable antenna_to_cartesian : Q → Q → Q → Q * Q * Q.
Variable cartesian_to_geographic : Q → Q → Q → Q → Q * Q.

(** Lines 180-192: the altitude of the point of interest. *)
Definition altitude_of_point (dscfg : Dscfg) (s : psr.t) (x y alt : Q)
  : res Q :=
  if negb (default true (truealt dscfg)) then
    let ke := (4 / 3)%Q in
    let a := 6378100%Q in
    let re := (a * ke)%Q in
    ele ← getitem (ele dscfg);
    let elrad := (ele * np_pi / 180)%Q in
    let r_ground := np_sqrt (x ^ 2 + y ^ 2)%Q in
    let r := (r_ground / np_cos elrad)%Q in
    Ok (psr.altitude s
        + np_sqrt (r ^ 2 + re ^ 2 + 2 * r * re * np_sin elrad) - re)%Q
  else Ok alt.

(** Lines 168-210: both coordinate triples of the point. *)
Definition resolve (dscfg : Dscfg) (s : psr.t) : res Locals :=
  if default false (latlon dscfg) then
    lon ← getitem (lon dscfg);
    lat ← getitem (lat dscfg);
    let alt := default 0%Q (alt dscfg) in
    let '(x, y) :=
      geographic_to_cartesian lon lat (psr.longitude s) (psr.latitude s) in
    alt_psr ← altitude_of_point dscfg s x y alt;
    let '(r, az, el) :=
      cartesian_to_antenna x y (alt_psr - psr.altitude s)%Q in
    Ok {| r := r; az := az; el := el;
          l_lon := lon; l_lat := lat; l_alt := alt;
          azi_tol := None; ele_tol := None; rng_tol := None |}
  else
    r ← getitem (rng dscfg);
    az ← getitem (azi dscfg);
    el ← getitem (ele dscfg);
    let '(x, y, alt) := antenna_to_cartesian (r / 1000)%Q az el in
    let '(lon, lat) :=
      cartesian_to_geographic x y (psr.longitude s) (psr.latitude s) in
    Ok {| r := r; az := az; el := el;
          l_lon := lon; l_lat := lat; l_alt := alt;
          azi_tol := Some (default 0.5%Q (AziTol dscfg));
          ele_tol := Some (default 0.5%Q (EleTol dscfg));
          rng_tol := Some (default 50%Q (RngTol dscfg)) |}.

(** The three minimum distances of lines 212, 220 and 228. *)
Definition d_az (s : psr.t) (l : Locals) : res Q :=
  np_min (np_abs (np_sub (psr.azimuth s) (az l))).
Definition d_el (s : psr.t) (l : Locals) : res Q :=
  np_min (np_abs (np_sub (psr.elevation s) (el l))).
Definition d_r (s : psr.t) (l : Locals) : res Q :=
  np_min (np_abs (np_sub (psr.range s) (r l))).

(** The two arrays whose [argmin] is taken at lines 236-238. *)
Definition angle_distance (s : psr.t) (l : Locals) : res (list Q) :=
  np_add (np_abs (np_sub (psr.azimuth s) (az l)))
         (np_abs (np_sub (psr.elevation s) (el l))).
Definition range_distance (s : psr.t) (l : Locals) : list Q :=
  np_abs (np_sub (psr.range s) (r l)).

(** Lines 212-238: the tolerance checks, then the selected cell
    [(ind_ray, ind_rng)]; [inl w] is the early [return None, None] after
    the warning [w]. *)
Definition locate (s : psr.t) (l : Locals) : res (Warning + nat * nat) :=
  daz ← d_az s l;
  tol ← local (azi_tol l);
  if Qgtb daz tol then Ok (inl (NoBinAzimuth daz)) else
  del ← d_el s l;
  tol ← local (ele_tol l);
  if Qgtb del tol then Ok (inl (NoBinElevation del)) else
  dr ← d_r s l;
  tol ← local (rng_tol l);
  if Qgtb dr tol then Ok (inl (NoBinRange dr)) else
  dist ← angle_distance s l;
  ind_ray ← np_argmin dist;
  ind_rng ← np_argmin (range_distance s l);
  Ok (inr (ind_ray, ind_rng)).

(** Lines 248-251. [add_field] of pyart refuses a name that is already
    a field ([replace_existing] is left to its default [False]). *)
Fixpoint prepare_fields (s : psr.t) (field_names : list string)
    (flds : gmap string arr) : res (gmap string arr) :=
  match field_names with
  | [] => Ok flds
  | field_name :: rest =>
      _ ← getitem (psr.fields s !! field_name);
      if decide (is_Some (flds !! field_name)) then Raise ValueError
      else prepare_fields s rest (<[field_name := []]> flds)
  end.

(** Lines 245-277: the record as initialization leaves it. *)
Definition initialize (s : psr.t) (field_names : list string)
    (l : Locals) (time_poi : Q) : res poi.t :=
  flds ← prepare_fields s field_names ∅;
  Ok {| poi.range := [r l];
        poi.ngates := 1;
        poi.nsweeps := 1;
        poi.time := [];
        poi.time_units := time_poi;
        poi.fixed_angle := [az l];
        poi.sweep_end_ray_index := int32 (-1);
        poi.rays_per_sweep := int32 0;
        poi.azimuth := [];
        poi.elevation := [];
        poi.nrays := 0;
        poi.npulses_max := psr.npulses_max s;
        poi.fields := flds;
        poi.Doppler_velocity := (λ _, []) <$> psr.Doppler_velocity s;
        poi.Doppler_frequency := (λ _, []) <$> psr.Doppler_frequency s;
        poi.gate_longitude := psr.gate_longitude s;
        poi.gate_latitude := psr.gate_latitude s;
        poi.gate_altitude := psr.gate_altitude s |}.

(** Lines 305-310: the spectrum of the selected cell, or an all-masked
    one when the scan lacks the field. *)
Definition poi_data (s : psr.t) (field_name : string)
    (ind_ray ind_rng : nat) : res (row * list Warning) :=
  match psr.fields s !! field_name with
  | None => Ok (masked_all_row (psr.npulses_max s), [FieldNotInPsr field_name])
  | Some data =>
      plane ← index data ind_ray;
      cells ← index plane ind_rng;
      cells ← reshape_row (psr.npulses_max s) cells;
      Ok (cells, [])
  end.

(** Lines 317-331 (and their copies 342-357, 368-383): one more row for a
    buffer that already holds rows. [nrays] is the row count already
    incremented, [poi_npulses] the width of the record before the call. *)
Definition put_nonempty (poi_npulses scan_npulses nrays : nat)
    (cur : arr) (data : row) : res arr :=
  if decide (poi_npulses = scan_npulses) then ma_append cur [data]
  else if decide (scan_npulses < poi_npulses) then
    poi_data_aux ← assign_prefix (masked_all_row poi_npulses) scan_npulses data;
    ma_append cur [poi_data_aux]
  else
    let poi_data_aux := masked_all nrays scan_npulses in
    poi_data_aux ← assign_block poi_data_aux (nrays - 1) poi_npulses cur;
    assign_row poi_data_aux (nrays - 1) data.

(** Lines 313-331. *)
Definition put_field (p : poi.t) (s : psr.t) (cur : arr) (data : row)
  : res arr :=
  if decide (np_size cur = 0) then
    data ← reshape_row (poi.npulses_max p) data; Ok [data]
  else put_nonempty (poi.npulses_max p) (psr.npulses_max s) (poi.nrays p)
         cur data.

(** Lines 304-331: the loop over the tracked fields. *)
Fixpoint put_fields (p : poi.t) (s : psr.t) (ind_ray ind_rng : nat)
    (field_names : list string) (flds : gmap string arr)
    (ws : list Warning) : res (gmap string arr * list Warning) :=
  match field_names with
  | [] => Ok (flds, ws)
  | field_name :: rest =>
      '(data, w) ← poi_data s field_name ind_ray ind_rng;
      cur ← getitem (flds !! field_name);
      new ← put_field p s cur data;
      put_fields p s ind_ray ind_rng rest (<[field_name := new]> flds)
        (ws ++ w)
  end.

(** Lines 333-357 and 359-383: the Doppler velocity and frequency axes. *)
Definition put_Doppler (p : poi.t) (s : psr.t) (ind_ray : nat)
    (cur src : option arr) : res (option arr) :=
  match cur with
  | None => Ok None
  | Some cur =>
      src ← match src with Some d => Ok d | None => Raise TypeError end;
      Doppler_data ← index src ind_ray;
      if decide (np_size cur = 0) then
        Doppler_data ← reshape_row (poi.npulses_max p) Doppler_data;
        Ok (Some [Doppler_data])
      else
        Doppler_data ← reshape_row (psr.npulses_max s) Doppler_data;
        new ← put_nonempty (poi.npulses_max p) (psr.npulses_max s)
                (poi.nrays p) cur Doppler_data;
        Ok (Some new)
  end.

(** Lines 286-302: the per-row attributes. *)
Definition count_row (p : poi.t) (l : Locals) (time_poi : Q) : poi.t :=
  let nrays := S (poi.nrays p) in
  {| poi.range := poi.range p;
     poi.ngates := poi.ngates p;
     poi.nsweeps := poi.nsweeps p;
     poi.time := poi.time p ++ [(time_poi - poi.time_units p)%Q];
     poi.time_units := poi.time_units p;
     poi.fixed_angle := poi.fixed_angle p;
     poi.sweep_end_ray_index := int32 (poi.sweep_end_ray_index p + 1);
     poi.rays_per_sweep := int32 (poi.rays_per_sweep p + 1);
     poi.azimuth := poi.azimuth p ++ [az l];
     poi.elevation := poi.elevation p ++ [el l];
     poi.nrays := nrays;
     poi.npulses_max := poi.npulses_max p;
     poi.fields := poi.fields p;
     poi.Doppler_velocity := poi.Doppler_velocity p;
     poi.Doppler_frequency := poi.Doppler_frequency p;
     poi.gate_longitude := replicate nrays (replicate (poi.ngates p) (l_lon l));
     poi.gate_latitude := replicate nrays (replicate (poi.ngates p) (l_lat l));
     poi.gate_altitude := replicate nrays (replicate (poi.ngates p) (l_alt l))
  |}.

(** Lines 286-387: one row appended to the record. *)
Definition append (field_names : list string) (s : psr.t) (l : Locals)
    (ind_ray ind_rng : nat) (time_poi : Q) (p : poi.t)
  : res (poi.t * list Warning) :=
  let p := count_row p l time_poi in
  '(flds, ws) ← put_fields p s ind_ray ind_rng field_names (poi.fields p) [];
  vel ← put_Doppler p s ind_ray (poi.Doppler_velocity p)
          (psr.Doppler_velocity s);
  freq ← put_Doppler p s ind_ray (poi.Doppler_frequency p)
           (psr.Doppler_frequency s);
  Ok ({| poi.range := poi.range p;
         poi.ngates := poi.ngates p;
         poi.nsweeps := poi.nsweeps p;
         poi.time := poi.time p;
         poi.time_units := poi.time_units p;
         poi.fixed_angle := poi.fixed_angle p;
         poi.sweep_end_ray_index := poi.sweep_end_ray_index p;
         poi.rays_per_sweep := poi.rays_per_sweep p;
         poi.azimuth := poi.azimuth p;
         poi.elevation := poi.elevation p;
         poi.nrays := poi.nrays p;
         poi.npulses_max := Nat.max (poi.npulses_max p) (psr.npulses_max s);
         poi.fields := flds;
         poi.Doppler_velocity := vel;
         poi.Doppler_frequency := freq;
         poi.gate_longitude := poi.gate_longitude p;
         poi.gate_latitude := poi.gate_latitude p;
         poi.gate_altitude := poi.gate_altitude p |}, ws).

(** Lines 390-396 and 148-154: the emitted dictionary. *)
Definition emit (g : GlobalData) (is_final : bool) : Dataset :=
  {| radar_out := psr_poi g;
     out_point_coordinates_WGS84_lon_lat_alt :=
       point_coordinates_WGS84_lon_lat_alt g;
     out_antenna_coordinates_az_el_r := antenna_coordinates_az_el_r g;
     final := is_final |}.

(** Lines 244-284: initialization on the first located cell. *)
Definition ensure_initialized (field_names : list string) (s : psr.t)
    (l : Locals) (time_poi : Q) (st : RunState) : res RunState :=
  if decide (initialized st = 0) then
    p ← initialize s field_names l time_poi;
    Ok {| initialized := 1;
          global_data := Some
            {| psr_poi := p;
               point_coordinates_WGS84_lon_lat_alt :=
                 (l_lon l, l_lat l, l_alt l);
               antenna_coordinates_az_el_r := (az l, el l, r l) |} |}
  else Ok st.

(** Line 387: [dscfg['global_data']['psr_poi'] = psr_poi]. *)
Definition set_psr_poi (g : GlobalData) (p : poi.t) : GlobalData :=
  {| psr_poi := p;
     point_coordinates_WGS84_lon_lat_alt :=
       point_coordinates_WGS84_lon_lat_alt g;
     antenna_coordinates_az_el_r := antenna_coordinates_az_el_r g |}.

(** Lines 158-398: a processing call on the scan [s]. *)
Definition process_scan (dscfg : Dscfg) (st : RunState) (radarnr : nat)
    (s : psr.t) : res (Output * RunState) :=
  let field_names := (datatype dscfg).*2 in
  l ← resolve dscfg s;
  cell ← locate s l;
  match cell with
  | inl w => Ok (nothing [w], st)
  | inr (ind_ray, ind_rng) =>
      t ← index (psr.time s) ind_ray;
      let time_poi := (psr.time_units s + t)%Q in
      st ← ensure_initialized field_names s l time_poi st;
      g ← getitem (global_data st);
      '(p, ws) ← append field_names s l ind_ray ind_rng time_poi (psr_poi g);
      let g := set_psr_poi g p in
      Ok ({| new_dataset := Some (emit g false);
             ind_rad := Some radarnr;
             warnings := ws |},
          {| initialized := initialized st; global_data := Some g |})
  end.

(** The whole function. [procstatus] is 0 (initializing), 1 (processing a
    volume) or 2 (post-processing); the result pairs what the call hands
    back with [dscfg] as the call leaves it. *)
Definition process_spectra_point (procstatus : Z) (dscfg : Dscfg)
    (st : RunState) (radar_list : option (list (option psr.t)))
  : res (Output * RunState) :=
  if decide (procstatus = 0%Z) then Ok (nothing [], st) else
  radarnr ← local (last (datatype dscfg).*1);
  if decide (procstatus = 2%Z) then
    if decide (initialized st = 0) then Ok (nothing [], st) else
    g ← getitem (global_data st);
    Ok ({| new_dataset := Some (emit g true);
           ind_rad := Some radarnr;
           warnings := [] |}, st)
  else
    match radar_list with
    | None => Ok (nothing [NoValidPsr], st)
    | Some radars =>
        entry ← index radars radarnr;
        match entry with
        | None => Ok (nothing [NoValidPsr], st)
        | Some s => process_scan dscfg st radarnr s
        end
    end.

(** ** Runs *)

(** One invocation of the function within a run. *)
Record Call : Type := {
  procstatus : Z;
  radar_list : option (list (option psr.t))
}.

(** ** Properties of records and states *)

(** [a] has [n] rows of [w] cells each. *)
Definition rect (n w : nat) (a : arr) : Prop :=
  length a = n ∧ Forall (λ cells, length cells = w) a.

(** A column of a row is masked. *)
Definition masked_at (cells : row) (c : nat) : Prop := cells !! c = Some None.

(** A row widened to [w] cells by masked filler. *)
Definition pad (w : nat) (cells : row) : row :=
  cells ++ replicate (w - length cells) None.

(** The buffer [cur] widened to [w] and followed by the row [data]. *)
Definition grow (w : nat) (cur : arr) (data : row) : arr :=
  (pad w <$> cur) ++ [pad w data].

(** The tracked field names of a configuration. *)
Definition field_names (dscfg : Dscfg) : list string := (datatype dscfg).*2.

(** Well-formedness of the accumulated record. The two [int32] counters
    follow the row count modulo 2^32. *)
Record poi_ok (names : list string) (p : poi.t) : Prop := {
  ok_time : length (poi.time p) = poi.nrays p;
  ok_azimuth : length (poi.azimuth p) = poi.nrays p;
  ok_elevation : length (poi.elevation p) = poi.nrays p;
  ok_range : length (poi.range p) = 1;
  ok_ngates : poi.ngates p = 1;
  ok_nsweeps : poi.nsweeps p = 1;
  ok_rays_per_sweep : poi.rays_per_sweep p = int32 (Z.of_nat (poi.nrays p));
  ok_sweep_end :
    poi.sweep_end_ray_index p = int32 (Z.of_nat (poi.nrays p) - 1);
  ok_width : 0 < poi.npulses_max p;
  ok_names : NoDup names;
  ok_dom : ∀ name, name ∈ names ↔ is_Some (poi.fields p !! name);
  ok_fields : ∀ name a,
    poi.fields p !! name = Some a → rect (poi.nrays p) (poi.npulses_max p) a;
  ok_velocity : ∀ a,
    poi.Doppler_velocity p = Some a →
    rect (poi.nrays p) (poi.npulses_max p) a;
  ok_frequency : ∀ a,
    poi.Doppler_frequency p = Some a →
    rect (poi.nrays p) (poi.npulses_max p) a
}.

(** Well-formedness of [dscfg] between two calls. *)
Definition state_ok (dscfg : Dscfg) (st : RunState) : Prop :=
  match global_data st with
  | None => initialized st = 0
  | Some g =>
      initialized st ≠ 0
      ∧ is_Some (last (datatype dscfg).*1)
      ∧ poi_ok (field_names dscfg) (psr_poi g)
      ∧ 1 ≤ poi.nrays (psr_poi g)
      ∧ poi.range (psr_poi g) = [(antenna_coordinates_az_el_r g).2]
  end.

(** Every scan handed to a call holds at least one pulse. The test
    [np.size(...) == 0] of lines 313, 334 and 360 stands for "no row yet"
    only for such scans. *)
Definition scans_have_pulses (radars : option (list (option psr.t))) : bool :=
  match radars with
  | None => true
  | Some l => forallb (λ entry, match entry with
                                | Some s => Nat.ltb 0 (psr.npulses_max s)
                                | None => true
                                end) l
  end.

(** What the selected cell of the scan [s] must look like for the append
    to go through: every tracked field the scan holds, and every Doppler
    axis the record tracks, has a spectrum of the declared width there. *)
Definition spectrum_at (s : psr.t) (data : list (list row))
    (ind_ray ind_rng : nat) : bool :=
  match data !! ind_ray with
  | Some plane =>
      match plane !! ind_rng with
      | Some cells => rowlen_eqb (psr.npulses_max s) cells
      | None => false
      end
  | None => false
  end.

Definition axis_at (s : psr.t) (tracked src : option arr) (ind_ray : nat)
  : bool :=
  match tracked, src with
  | None, _ => true
  | Some _, None => false
  | Some _, Some d =>
      match d !! ind_ray with
      | Some cells => rowlen_eqb (psr.npulses_max s) cells
      | None => false
      end
  end.

Definition scan_fits (names : list string) (p : poi.t) (s : psr.t)
    (ind_ray ind_rng : nat) : bool :=
  forallb (λ name, match psr.fields s !! name with
                   | None => true
                   | Some data => spectrum_at s data ind_ray ind_rng
                   end) names
  && axis_at s (poi.Doppler_velocity p) (psr.Doppler_velocity s) ind_ray
  && axis_at s (poi.Doppler_frequency p) (psr.Doppler_frequency s) ind_ray.

(** The scan a call works on, if any. *)
Definition scan_of (dscfg : Dscfg) (c : Call) : option psr.t :=
  radarnr ← last (datatype dscfg).*1;
  radars ← radar_list c;
  entry ← radars !! radarnr;
  entry.

(** The pulse width of the row a call appended, if it appended one. *)
Definition appended_width (dscfg : Dscfg) (c : Call) (out : Output)
  : list nat :=
  match new_dataset out, scan_of dscfg c with
  | Some ds, Some s => if final ds then [] else [psr.npulses_max s]
  | _, _ => []
  end.

(** [run_to dscfg widths st]: some sequence of calls, none of which
    raised, leads from the idle state to [st]; [widths] lists the pulse
    widths of the rows appended on the way, in order. *)
Inductive run_to (dscfg : Dscfg) : list nat → RunState → Prop :=
| run_idle : run_to dscfg [] idle
| run_call widths st c out st' :
    run_to dscfg widths st →
    scans_have_pulses (radar_list c) = true →
    process_spectra_point (procstatus c) dscfg st (radar_list c)
      = Ok (out, st') →
    run_to dscfg (widths ++ appended_width dscfg c out) st'.

Definition reachable (dscfg : Dscfg) (st : RunState) : Prop :=
  ∃ widths, run_to dscfg widths st.

(** The row count of the accumulated record, 0 before initialization. *)
Definition rows (st : RunState) : nat :=
  match global_data st with
  | Some g => poi.nrays (psr_poi g)
  | None => 0
  end.

(** The record is a single sweep over a single gate at range [rng0]. *)
Definition single_sweep_single_gate (p : poi.t) (rng0 : Q) : Prop :=
  poi.nsweeps p = 1
  ∧ poi.ngates p = 1
  ∧ poi.range p = [rng0]
  ∧ poi.rays_per_sweep p = Z.of_nat (poi.nrays p)
  ∧ poi.sweep_end_ray_index p = (Z.of_nat (poi.nrays p) - 1)%Z.


End ProcessSpectraPoint.

(** ** Sample inputs *)

Module Sample.

(** Stand-ins for the library functions, for evaluation. *)
Definition pi : Q := 3.
Definition fn (x : Q) : Q := x.
Definition pair_of (a b _ _ : Q) : Q * Q := (a, b).
Definition triple_of (a b c : Q) : Q * Q * Q := (a, b, c).

(** The point at azimuth 10, elevation 5, range 5000 m, with tolerances
    of 1 degree, 1 degree and 50 m; one tracked field. *)
Definition antenna_dscfg : Dscfg :=
  {| datatype := [(0, "sPhh")];
     truealt := None; latlon := None;
     lon := None; lat := None; alt := None;
     ele := Some 5%Q; azi := Some 10%Q; rng := Some 5000%Q;
     AziTol := Some 1%Q; EleTol := Some 1%Q; RngTol := Some 50%Q;
     latlonTol := None; altTol := None |}.

(** The same run tracking a second field. *)
Definition two_fields_dscfg : Dscfg :=
  {| datatype := [(0, "sPhh"); (0, "sPvv")];
     truealt := None; latlon := None;
     lon := None; lat := None; alt := None;
     ele := Some 5%Q; azi := Some 10%Q; rng := Some 5000%Q;
     AziTol := Some 1%Q; EleTol := Some 1%Q; RngTol := Some 50%Q;
     latlonTol := None; altTol := None |}.

(** A point given by longitude and latitude, its altitude derived from
    the elevation. *)
Definition geographic_dscfg : Dscfg :=
  {| datatype := [(0, "sPhh")];
     truealt := Some false; latlon := Some true;
     lon := Some 8%Q; lat := Some 46%Q; alt := None;
     ele := Some 5%Q; azi := None; rng := None;
     AziTol := Some 1%Q; EleTol := Some 1%Q; RngTol := Some 50%Q;
     latlonTol := None; altTol := None |}.

(** A scan at elevation 5 with the ray azimuths [azs], three range gates
    and [w] pulses; every cell of its fields [names] holds [v]. *)
Definition scan (names : list string) (azs : list Q) (w : nat) (v : Q)
  : psr.t :=
  let nrays := length azs in
  let data := replicate nrays (replicate 3 (replicate w (Some v))) in
  {| psr.longitude := 8; psr.latitude := 46; psr.altitude := 1000;
     psr.azimuth := azs;
     psr.elevation := replicate nrays 5%Q;
     psr.range := [4900; 5000; 5100]%Q;
     psr.time := replicate nrays 7%Q;
     psr.time_units := 100;
     psr.npulses_max := w;
     psr.fields := list_to_map ((λ name, (name, data)) <$> names);
     psr.Doppler_velocity := Some (replicate nrays (replicate w (Some 1%Q)));
     psr.Doppler_frequency := None;
     psr.gate_longitude := [];
     psr.gate_latitude := [];
     psr.gate_altitude := [] |}.

Definition call (s : psr.t) : Call :=
  {| procstatus := 1; radar_list := Some [Some s] |}.

(** The function with the stand-ins. *)
Definition process (c : Call) (dscfg : Dscfg) (st : RunState)
  : res (Output * RunState) :=
  process_spectra_point pi fn fn fn pair_of triple_of triple_of pair_of
    (procstatus c) dscfg st (radar_list c).

(** The state a call leaves, [st] itself when it raised. *)
Definition after (c : Call) (dscfg : Dscfg) (st : RunState) : RunState :=
  match process c dscfg st with
  | Ok (_, st') => st'
  | Raise _ => st
  end.

(** What a call hands back, nothing when it raised. *)
Definition output (c : Call) (dscfg : Dscfg) (st : RunState) : Output :=
  match process c dscfg st with
  | Ok (out, _) => out
  | Raise _ => nothing []
  end.

(** Two scans of 2 and then 4 pulses, then one of a single pulse. *)
Definition scan2 : psr.t := scan ["sPhh"] [9.6; 10.3; 12.0]%Q 2 3.
Definition scan4 : psr.t := scan ["sPhh"] [9.6; 10.3; 12.0]%Q 4 5.
Definition scan1 : psr.t := scan ["sPhh"] [9.6; 10.3; 12.0]%Q 1 6.
(** A scan whose nearest ray is 2 degrees off in azimuth. *)
Definition scan_far : psr.t := scan ["sPhh"] [12.0]%Q 4 7.

(** The states of the sample run, and what its calls hand back. *)
Definition st1 : RunState :=
  Eval vm_compute in after (call scan2) antenna_dscfg idle.
Definition out1 : Output :=
  Eval vm_compute in output (call scan2) antenna_dscfg idle.
Definition st2 : RunState :=
  Eval vm_compute in after (call scan4) antenna_dscfg st1.
Definition out2 : Output :=
  Eval vm_compute in output (call scan4) antenna_dscfg st1.
Definition st3 : RunState :=
  Eval vm_compute in after (call scan1) antenna_dscfg st2.
Definition out3 : Output :=
  Eval vm_compute in output (call scan1) antenna_dscfg st2.


(** The sample point as [resolve] binds it. *)
Definition point : Locals :=
  {| r := 5000; az := 10; el := 5;
     l_lon := 5.000; l_lat := 10; l_alt := 5;
     azi_tol := Some 1%Q; ele_tol := Some 1%Q; rng_tol := Some 50%Q |}.

(** A run tracking two fields: a first scan that holds both, then one
    that lacks the second. *)
Definition scan_both : psr.t := scan ["sPhh"; "sPvv"] [9.6; 10.3; 12.0]%Q 2 3.
Definition st1_both : RunState :=
  Eval vm_compute in after (call scan_both) two_fields_dscfg idle.
Definition out1_both : Output :=
  Eval vm_compute in output (call scan_both) two_fields_dscfg idle.

(** Three scans of one ray each, at azimuths 9.6, 10.3 and 12.0. *)
Definition three_scans : list psr.t :=
  [scan ["sPhh"] [9.6]%Q 2 3; scan ["sPhh"] [10.3]%Q 2 4;
   scan ["sPhh"] [12.0]%Q 2 5].

(** The calls of a list one after the other, as long as none raises. *)
Fixpoint run (dscfg : Dscfg) (st : RunState) (calls : list Call)
  : res (list Output * RunState) :=
  match calls with
  | [] => Ok ([], st)
  | c :: rest =>
      '(out, st) ← process c dscfg st;
      '(outs, st) ← run dscfg st rest;
      Ok (out :: outs, st)
  end.

(** Two rays: the first nearer in azimuth, the second nearer in
    elevation and nearer in the sum. *)
Definition scan_two_rays : psr.t :=
  {| psr.longitude := 8; psr.latitude := 46; psr.altitude := 1000;
     psr.azimuth := [10.1; 10.2]%Q;
     psr.elevation := [5.9; 5.0]%Q;
     psr.range := [5000]%Q;
     psr.time := [7; 8]%Q;
     psr.time_units := 100;
     psr.npulses_max := 1;
     psr.fields := {[ "sPhh" := [[[Some 1%Q]]; [[Some 2%Q]]] ]};
     psr.Doppler_velocity := None;
     psr.Doppler_frequency := None;
     psr.gate_longitude := [];
     psr.gate_latitude := [];
     psr.gate_altitude := [] |}.

End Sample.

(** * More of the module *)

(** ** Shapes of a scan *)

(** Every tracked field the scan holds has a spectrum of the declared
    width at the cell [(ind_ray, ind_rng)]. *)
Definition fields_fit (names : list string) (s : psr.t)
    (ind_ray ind_rng : nat) : bool :=
  forallb (λ name, match psr.fields s !! name with
                   | None => true
                   | Some data => spectrum_at s data ind_ray ind_rng
                   end) names.





(** ** [process_filter_0Doppler] *)

(** A spectra object together with its attribute [nrays], which the
    filter reads. *)
Module spectra.
Record t : Type := mk {
    obj : psr.t;
    nrays : nat
  }.
End spectra.

(** The keys of [dscfg] that [process_filter_0Doppler] reads; the
    descriptors of ['datatype'] are kept as for [Dscfg]. *)
Module filter.
Record t : Type := mk {
    datatype : list (nat * string);
    filter_width : option Q;
    filter_units : option string
  }.
End filter.

Inductive VolumeWarning : Type :=
| NoValidRadar
| MissingField (field_name : string).

(** What a call on a volume hands back: [new_dataset['radar_out']], the
    radar index, and the warnings issued. *)
Record VolumeOutput : Type := {
  volume_out : option spectra.t;
  volume_ind_rad : option nat;
  volume_warnings : list VolumeWarning
}.

Definition no_volume (ws : list VolumeWarning) : VolumeOutput :=
  {| volume_out := None; volume_ind_rad := None; volume_warnings := ws |}.

(** [x['data']] on an attribute that may be [None]. *)
Definition subscript {A} (o : option A) : res A :=
  match o with
  | Some a => Ok a
  | None => Raise TypeError
  end.

(** [psr] with its dictionary of fields replaced. *)
Definition with_fields (s : spectra.t)
    (flds : gmap string (list (list row))) : spectra.t :=
  let o := spectra.obj s in
  {| spectra.obj :=
       {| psr.longitude := psr.longitude o;
          psr.latitude := psr.latitude o;
          psr.altitude := psr.altitude o;
          psr.azimuth := psr.azimuth o;
          psr.elevation := psr.elevation o;
          psr.range := psr.range o;
          psr.time := psr.time o;
          psr.time_units := psr.time_units o;
          psr.npulses_max := psr.npulses_max o;
          psr.fields := flds;
          psr.Doppler_velocity := psr.Doppler_velocity o;
          psr.Doppler_frequency := psr.Doppler_frequency o;
          psr.gate_longitude := psr.gate_longitude o;
          psr.gate_latitude := psr.gate_latitude o;
          psr.gate_altitude := psr.gate_altitude o |};
     spectra.nrays := spectra.nrays s |}.

(** Lines 464-465: an unmasked axis value within the band. The
    comparison of a masked value is masked, and [np.ma.where] leaves
    masked entries out. *)
Definition in_band (filter_width : Q) (v : option Q) : bool :=
  match v with
  | Some x =>
      Qle_bool (- filter_width / 2) x && Qle_bool x (filter_width / 2)
  | None => false
  end.

(** [np.ma.where(cond)]: the indices at which [cond] holds. *)
Fixpoint where_from (i : nat) (cond : list bool) : list nat :=
  match cond with
  | [] => []
  | b :: rest =>
      if b then i :: where_from (S i) rest else where_from (S i) rest
  end.

Definition ma_where (cond : list bool) : list nat := where_from 0 cond.

(** [cells[ind] = np.ma.masked] on one spectrum; an index beyond the
    pulse axis raises. *)
Definition mask_pulses (ind : list nat) (cells : row) : res row :=
  if forallb (λ k, Nat.ltb k (length cells)) ind
  then Ok (foldr (λ k acc, <[k := None]> acc) cells ind)
  else Raise IndexError.

(** Line 466: [data[ray, :, ind] = np.ma.masked]. *)
Definition mask_ray (data : list (list row)) (ray : nat) (ind : list nat)
  : res (list (list row)) :=
  plane ← index data ray;
  plane ← for_each (mask_pulses ind) plane;
  Ok (<[ray := plane]> data).

(** Lines 462-466: the loop over the rays. *)
Fixpoint filter_rays (axis : arr) (filter_width : Q)
    (data : list (list row)) (rays : list nat) : res (list (list row)) :=
  match rays with
  | [] => Ok data
  | ray :: rest =>
      axis_ray ← index axis ray;
      let ind := ma_where (in_band filter_width <$> axis_ray) in
      data ← mask_ray data ray ind;
      filter_rays axis filter_width data rest
  end.

(** Lines 454-468: the loop over the requested fields; [fields] and
    [aux] are the dictionary and the list [field_name_list_aux]. *)
Fixpoint filter_fields (s : spectra.t) (axis : arr) (filter_width : Q)
    (names : list string) (fields : gmap string (list (list row)))
    (aux : list string) (ws : list VolumeWarning)
  : res (gmap string (list (list row)) * list string * list VolumeWarning) :=
  match names with
  | [] => Ok (fields, aux, ws)
  | field_name :: rest =>
      match psr.fields (spectra.obj s) !! field_name with
      | None =>
          filter_fields s axis filter_width rest fields aux
            (ws ++ [MissingField field_name])
      | Some data =>
          field ← filter_rays axis filter_width data
                    (seq 0 (spectra.nrays s));
          filter_fields s axis filter_width rest
            (<[field_name := field]> fields) (aux ++ [field_name]) ws
      end
  end.

(** Lines 472-474: the fields added one by one to an empty dictionary;
    [add_field] refuses a name that is already a field. Its test of the
    shape of the data is passed by a field that has the shape of the
    scan, as the filter leaves it, and is left out. *)
Fixpoint add_fields (fields : gmap string (list (list row)))
    (names : list string) (acc : gmap string (list (list row)))
  : res (gmap string (list (list row))) :=
  match names with
  | [] => Ok acc
  | field_name :: rest =>
      field ← getitem (fields !! field_name);
      if decide (is_Some (acc !! field_name)) then Raise ValueError
      else add_fields fields rest (<[field_name := field]> acc)
  end.

(** Lines 446-476: the filter on the scan [s]. *)
Definition filter_scan (dscfg : filter.t) (radarnr : nat) (s : spectra.t)
  : res VolumeOutput :=
  let filter_width := default 0%Q (filter.filter_width dscfg) in
  let filter_units := default "m/s" (filter.filter_units dscfg) in
  axis ← (if String.eqb filter_units "m/s"
          then subscript (psr.Doppler_velocity (spectra.obj s))
          else subscript (psr.Doppler_frequency (spectra.obj s)));
  '(fields, aux, ws) ←
    filter_fields s axis filter_width (filter.datatype dscfg).*2 ∅ [] [];
  flds ← add_fields fields aux ∅;
  Ok {| volume_out := Some (with_fields s flds);
        volume_ind_rad := Some radarnr;
        volume_warnings := ws |}.

(** Lines 401-476. The radar is the one of the last descriptor. *)
Definition process_filter_0Doppler (procstatus : Z) (dscfg : filter.t)
    (radar_list : option (list (option spectra.t))) : res VolumeOutput :=
  if decide (procstatus ≠ 1%Z) then Ok (no_volume []) else
  radarnr ← local (last (filter.datatype dscfg).*1);
  match radar_list with
  | None => Ok (no_volume [NoValidRadar])
  | Some radars =>
      entry ← index radars radarnr;
      match entry with
      | None => Ok (no_volume [NoValidRadar])
      | Some s => filter_scan dscfg radarnr s
      end
  end.

(** The filter, cell by cell: the spectrum [cells] of a ray whose axis
    row is [axis_ray], with the cells of the band masked. *)
Definition band_at (filter_width : Q) (axis_ray : row) (c : nat) : bool :=
  match axis_ray !! c with
  | Some v => in_band filter_width v
  | None => false
  end.

Definition masked_in_band (filter_width : Q) (axis_ray cells : row) : row :=
  imap (λ c v, if band_at filter_width axis_ray c then None else v) cells.

(** The whole field: the rays below [nrays] are filtered against their
    axis row, the others are left alone. *)
Definition zero_Doppler_masked (filter_width : Q) (axis : arr) (nrays : nat)
    (data : list (list row)) : list (list row) :=
  imap (λ ray plane,
          match axis !! ray with
          | Some axis_ray =>
              if Nat.ltb ray nrays
              then masked_in_band filter_width axis_ray <$> plane
              else plane
          | None => plane
          end) data.

(** The Doppler axis the filter uses. *)
Definition filter_axis (dscfg : filter.t) (s : spectra.t) : option arr :=
  if String.eqb (default "m/s" (filter.filter_units dscfg)) "m/s"
  then psr.Doppler_velocity (spectra.obj s)
  else psr.Doppler_frequency (spectra.obj s).

(** What the masking of line 466 needs: the band of the axis row lies
    within the pulse axis of the spectrum. *)
Definition row_ready (filter_width : Q) (axis_ray cells : row) : Prop :=
  ∀ c, band_at filter_width axis_ray c = true → c < length cells.

(** What the loop over the rays needs of the axis and of a field. *)
Definition field_ready (filter_width : Q) (axis : arr) (nrays : nat)
    (data : list (list row)) : Prop :=
  ∀ ray, ray < nrays →
    ∃ axis_ray plane,
      axis !! ray = Some axis_ray ∧ data !! ray = Some plane
      ∧ Forall (row_ready filter_width axis_ray) plane.

(** The warnings of the loop over the requested fields. *)
Definition missing_fields (s : spectra.t) (names : list string)
  : list VolumeWarning :=
  omap (λ name, match psr.fields (spectra.obj s) !! name with
                | None => Some (MissingField name)
                | Some _ => None
                end) names.

(** The requested fields the scan holds. *)
Definition present_fields (s : spectra.t) (names : list string)
  : list string :=
  omap (λ name, match psr.fields (spectra.obj s) !! name with
                | None => None
                | Some _ => Some name
                end) names.

(** The cell [(ray, gate, pulse)] of a field. *)
Definition cell_at (data : list (list row)) (ray g c : nat)
  : option (option Q) :=
  plane ← data !! ray; cells ← plane !! g; cells !! c.

(** The pulse [c] of the ray [ray] is one the filter masks. *)
Definition filtered (filter_width : Q) (axis : arr) (nrays ray c : nat)
  : bool :=
  match axis !! ray with
  | Some axis_ray => Nat.ltb ray nrays && band_at filter_width axis_ray c
  | None => false
  end.


(** ** More sample data *)

Module MoreSamples.
Import Sample.

(** What the sample run hands back for a scan out of tolerance. *)
Definition out_far : Output :=
  Eval vm_compute in output (call scan_far) antenna_dscfg st2.

(** The scan of 4 pulses without its Doppler velocity axis. *)
Definition scan_no_axis : psr.t :=
  {| psr.longitude := 8; psr.latitude := 46; psr.altitude := 1000;
     psr.azimuth := [9.6; 10.3; 12.0]%Q;
     psr.elevation := [5; 5; 5]%Q;
     psr.range := [4900; 5000; 5100]%Q;
     psr.time := [7; 7; 7]%Q;
     psr.time_units := 100;
     psr.npulses_max := 4;
     psr.fields := psr.fields scan4;
     psr.Doppler_velocity := None;
     psr.Doppler_frequency := None;
     psr.gate_longitude := [];
     psr.gate_latitude := [];
     psr.gate_altitude := [] |}.

(** A volume of three rays, three gates and four pulses whose velocity
    axis is, on every ray, -2, 0, masked and 1 m/s; every cell of its
    field holds 5. *)
Definition velocities : arr :=
  replicate 3 [Some (-2); Some 0; None; Some 1]%Q.

Definition volume : spectra.t :=
  {| spectra.obj :=
       {| psr.longitude := 8; psr.latitude := 46; psr.altitude := 1000;
          psr.azimuth := [9.6; 10.3; 12.0]%Q;
          psr.elevation := [5; 5; 5]%Q;
          psr.range := [4900; 5000; 5100]%Q;
          psr.time := [7; 7; 7]%Q;
          psr.time_units := 100;
          psr.npulses_max := 4;
          psr.fields := psr.fields scan4;
          psr.Doppler_velocity := Some velocities;
          psr.Doppler_frequency := None;
          psr.gate_longitude := [];
          psr.gate_latitude := [];
          psr.gate_altitude := [] |};
     spectra.nrays := 3 |}.

(** A filter of 2 m/s on two fields, the second of which the volume
    lacks; the same with the default width 0; and with a negative
    width. *)
Definition filter_dscfg : filter.t :=
  {| filter.datatype := [(0, "sPhh"); (0, "sPvv")];
     filter.filter_width := Some 2%Q;
     filter.filter_units := None |}.

Definition narrow_dscfg : filter.t :=
  {| filter.datatype := [(0, "sPhh"); (0, "sPvv")];
     filter.filter_width := None;
     filter.filter_units := None |}.

Definition negative_dscfg : filter.t :=
  {| filter.datatype := [(0, "sPhh"); (0, "sPvv")];
     filter.filter_width := Some (-1)%Q;
     filter.filter_units := None |}.

(** What the filter hands back, nothing when it raised. *)
Definition filter_output (dscfg : filter.t) (s : spectra.t)
  : VolumeOutput :=
  match process_filter_0Doppler 1 dscfg (Some [Some s]) with
  | Ok out => out
  | Raise _ => no_volume []
  end.

Definition filtered_out : VolumeOutput :=
  Eval vm_compute in filter_output filter_dscfg volume.
Definition filtered_volume : spectra.t :=
  Eval vm_compute in default volume (volume_out filtered_out).
Definition narrow_out : VolumeOutput :=
  Eval vm_compute in filter_output narrow_dscfg volume.
Definition narrow_volume : spectra.t :=
  Eval vm_compute in default volume (volume_out narrow_out).
Definition negative_out : VolumeOutput :=
  Eval vm_compute in filter_output negative_dscfg volume.
Definition negative_volume : spectra.t :=
  Eval vm_compute in default volume (volume_out negative_out).

End MoreSamples.

(** * Verification *)

(** ** Results *)

Lemma bind_Ok {A B} (m : res A) (f : A → res B) (b : B) :
  m ≫= f = Ok b → ∃ a, m = Ok a ∧ f a = Ok b.
Proof. destruct m as [a|e]; [eauto | discriminate]. Qed.

Lemma Ok_bind {A B} (a : A) (f : A → res B) : Ok a ≫= f = f a.
Proof. reflexivity. Qed.

Ltac inv_bind H :=
  let x := fresh "x" in
  let Hx := fresh "Hx" in
  apply bind_Ok in H as (x & Hx & H).

(** ** Arrays *)

Lemma length_pad w cells : length cells ≤ w → length (pad w cells) = w.
Proof. intros. unfold pad. rewrite length_app, length_replicate. lia. Qed.

Lemma pad_id w cells : w ≤ length cells → pad w cells = cells.
Proof.
  intros. unfold pad. replace (w - length cells) with 0 by lia.
  apply app_nil_r.
Qed.

Lemma pad_lookup_l w cells c :
  c < length cells → pad w cells !! c = cells !! c.
Proof. intros. unfold pad. by rewrite lookup_app_l. Qed.

Lemma pad_masked w cells c :
  length cells ≤ c < w → masked_at (pad w cells) c.
Proof.
  intros [H1 H2]. unfold masked_at, pad.
  rewrite lookup_app_r by done. apply lookup_replicate_2. lia.
Qed.

Lemma rect_length n w a : rect n w a → length a = n.
Proof. by intros [? ?]. Qed.

Lemma rect_lookup n w a i cells :
  rect n w a → a !! i = Some cells → length cells = w.
Proof. intros [_ H] Hi. by eapply Forall_lookup_1 in H. Qed.

Lemma np_size_rect n w a : rect n w a → np_size a = n * w.
Proof.
  intros [<- H]. unfold np_size. induction H as [|x l Hx _ IH]; simpl; [done|].
  rewrite Hx. f_equal. exact IH.
Qed.

Lemma rect_grow n wp w cur data :
  rect n wp cur → wp ≤ w → length data ≤ w → rect (S n) w (grow w cur data).
Proof.
  intros [Hn Hall] Hw Hd. split.
  - unfold grow. rewrite length_app, length_fmap, Hn. cbn [length]. lia.
  - unfold grow. apply Forall_app. split.
    + apply Forall_fmap. eapply Forall_impl; [exact Hall|].
      intros x Hx. simpl in *. apply length_pad. lia.
    + apply Forall_singleton. by apply length_pad.
Qed.

Lemma bcast_same {A} n (l : list A) : length l = n → bcast n l = Ok l.
Proof. intros. unfold bcast. by rewrite decide_True. Qed.

Lemma reshape_row_Ok w cells cells' :
  reshape_row w cells = Ok cells' → cells' = cells ∧ length cells = w.
Proof.
  unfold reshape_row, rowlen_eqb.
  destruct (Nat.eqb_spec (length cells) w); [|done].
  intros [= <-]. done.
Qed.

Lemma reshape_row_same w cells :
  length cells = w → reshape_row w cells = Ok cells.
Proof.
  intros. unfold reshape_row, rowlen_eqb. by rewrite (proj2 (Nat.eqb_eq _ _) H).
Qed.

Lemma ma_append_rect n w cur data :
  rect n w cur → 1 ≤ n → length data = w →
  ma_append cur [data] = Ok (cur ++ [data]).
Proof.
  intros [Hn Hall] Hpos Hd. unfold ma_append.
  destruct cur as [|c cur]; [simpl in Hn; lia|].
  assert (length c = w) as Hc by (by inversion Hall).
  rewrite Hc.
  assert (forallb (rowlen_eqb w) ((c :: cur) ++ [data]) = true) as ->; [|done].
  apply forallb_forall. intros x Hx. apply in_app_or in Hx as [Hx|Hx].
  - apply list_elem_of_In in Hx. rewrite Forall_forall in Hall.
    unfold rowlen_eqb. apply Nat.eqb_eq. by apply Hall.
  - destruct Hx as [<-|[]]. unfold rowlen_eqb. by apply Nat.eqb_eq.
Qed.

Lemma assign_prefix_masked w k src :
  length src = k → k ≤ w →
  assign_prefix (masked_all_row w) k src = Ok (pad w src).
Proof.
  intros Hs Hk. unfold assign_prefix, masked_all_row.
  rewrite length_replicate. replace (k `min` w) with k by lia.
  rewrite bcast_same by done. simpl.
  rewrite drop_replicate. unfold pad. by rewrite Hs.
Qed.

Lemma for_each_assign_prefix w k (src : arr) :
  Forall (λ cells, length cells = k) src → k ≤ w →
  for_each (λ '(d, s), assign_prefix d k s)
    (zip (replicate (length src) (masked_all_row w)) src)
  = Ok (pad w <$> src).
Proof.
  intros Hall Hk. induction Hall as [|x l Hx _ IH]; simpl; [done|].
  rewrite assign_prefix_masked by done. simpl. rewrite IH. done.
Qed.

Lemma assign_block_masked n w k src :
  rect n k src → k ≤ w →
  assign_block (masked_all (S n) w) n k src
  = Ok ((pad w <$> src) ++ [masked_all_row w]).
Proof.
  intros [Hn Hall] Hk. unfold assign_block, masked_all.
  rewrite length_replicate. replace (n `min` S n) with n by lia.
  rewrite bcast_same, Ok_bind by done.
  rewrite take_replicate, drop_replicate.
  replace (n `min` S n) with (length src) by lia.
  rewrite for_each_assign_prefix, Ok_bind by done.
  by replace (S n - n) with 1 by lia.
Qed.

Lemma assign_row_last (a : arr) d src :
  length src = length d →
  assign_row (a ++ [d]) (length a) src = Ok (a ++ [src]).
Proof.
  intros Hs. unfold assign_row, index.
  rewrite lookup_app_r, Nat.sub_diag by done. cbn [lookup list_lookup].
  rewrite Ok_bind, bcast_same, Ok_bind by done. f_equal.
  rewrite insert_app_r_alt, Nat.sub_diag by done. done.
Qed.

(** The three branches of lines 317-331 in one closed form. *)
Lemma put_nonempty_grow n wp ws cur data :
  rect n wp cur → 1 ≤ n → length data = ws →
  put_nonempty wp ws (S n) cur data = Ok (grow (wp `max` ws) cur data).
Proof.
  intros Hr Hn Hd. unfold put_nonempty, grow.
  destruct (decide (wp = ws)) as [->|Hne].
  - rewrite Nat.max_id. erewrite ma_append_rect by done.
    rewrite pad_id by lia. f_equal. f_equal.
    rewrite <- (list_fmap_id cur) at 1. apply Forall_fmap_ext_1.
    destruct Hr as [_ Hall]. eapply Forall_impl; [exact Hall|].
    intros x Hx. simpl in *. rewrite pad_id; [done|lia].
  - destruct (decide (ws < wp)) as [Hlt|Hge].
    + replace (wp `max` ws) with wp by lia.
      rewrite assign_prefix_masked, Ok_bind by lia.
      erewrite ma_append_rect; [|exact Hr|done|apply length_pad; lia].
      f_equal. f_equal.
      rewrite <- (list_fmap_id cur) at 1. apply Forall_fmap_ext_1.
      destruct Hr as [_ Hall]. eapply Forall_impl; [exact Hall|].
      intros x Hx. simpl in *. rewrite pad_id; [done|lia].
    + replace (wp `max` ws) with ws by lia.
      replace (S n - 1) with n by lia.
      rewrite (assign_block_masked n ws wp cur), Ok_bind by (done || lia).
      pose proof (rect_length _ _ _ Hr) as Hlen.
      rewrite <- Hlen at 1.
      rewrite <- (length_fmap (pad ws) cur).
      rewrite assign_row_last.
      * by rewrite pad_id by lia.
      * unfold masked_all_row. by rewrite length_replicate.
Qed.

(** ** The accumulator *)

Lemma int32_succ z : int32 (int32 z + 1) = int32 (z + 1).
Proof.
  unfold int32.
  replace ((z + 2 ^ 31) `mod` 2 ^ 32 - 2 ^ 31 + 1 + 2 ^ 31)%Z
    with ((z + 2 ^ 31) `mod` 2 ^ 32 + 1)%Z by lia.
  rewrite Zplus_mod_idemp_l. f_equal. f_equal. lia.
Qed.

Lemma int32_small z : (- 2 ^ 31 ≤ z < 2 ^ 31)%Z → int32 z = z.
Proof. intros. unfold int32. rewrite Z.mod_small; lia. Qed.

Lemma poi_data_length s name i j data w :
  poi_data s name i j = Ok (data, w) → length data = psr.npulses_max s.
Proof.
  unfold poi_data. destruct (psr.fields s !! name) as [d|].
  - intros H. inv_bind H. inv_bind H. inv_bind H.
    apply reshape_row_Ok in Hx1 as [-> Hlen]. by injection H as <- _.
  - intros [= <- _]. unfold masked_all_row. apply length_replicate.
Qed.

Lemma poi_data_missing s name i j :
  psr.fields s !! name = None →
  poi_data s name i j
  = Ok (masked_all_row (psr.npulses_max s), [FieldNotInPsr name]).
Proof. intros H. unfold poi_data. by rewrite H. Qed.

Lemma poi_data_present s name i j data :
  psr.fields s !! name = Some data → spectrum_at s data i j = true →
  ∃ cells, poi_data s name i j = Ok (cells, []).
Proof.
  intros H Hfit. unfold poi_data, index. rewrite H.
  unfold spectrum_at in Hfit.
  destruct (data !! i) as [plane|] eqn:Hp; [|done].
  destruct (plane !! j) as [cells|] eqn:Hc; [|done].
  exists cells. cbn. rewrite Hc. cbn. unfold reshape_row. by rewrite Hfit.
Qed.

Section Put.
Context (p : poi.t) (s : psr.t) (n : nat).
Hypothesis Hrays : poi.nrays p = S n.
Hypothesis Hwidth : 0 < poi.npulses_max p.
Hypothesis Hfirst : n = 0 → poi.npulses_max p = psr.npulses_max s.

Local Abbreviation W := (poi.npulses_max p `max` psr.npulses_max s).

Lemma put_field_grow cur data :
  rect n (poi.npulses_max p) cur → length data = psr.npulses_max s →
  put_field p s cur data = Ok (grow W cur data).
Proof using Hrays Hwidth Hfirst.
  intros Hr Hd. unfold put_field. rewrite (np_size_rect _ _ _ Hr).
  destruct (decide (n * poi.npulses_max p = 0)) as [Hz|Hnz].
  - assert (n = 0) as Hn0 by nia.
    specialize (Hfirst Hn0).
    rewrite reshape_row_same, Ok_bind by congruence.
    destruct Hr as [Hlen _]. rewrite Hn0 in Hlen.
    apply nil_length_inv in Hlen as ->.
    unfold grow. simpl. rewrite pad_id; [done|lia].
  - rewrite Hrays. apply put_nonempty_grow; [done|lia|done].
Qed.

Lemma put_fields_inv i j names : ∀ flds ws flds' ws',
  NoDup names →
  (∀ name cur, name ∈ names → flds !! name = Some cur →
     rect n (poi.npulses_max p) cur) →
  put_fields p s i j names flds ws = Ok (flds', ws') →
  (∀ name, name ∉ names → flds' !! name = flds !! name)
  ∧ (∀ name, name ∈ names →
       ∃ cur data w, flds !! name = Some cur
         ∧ poi_data s name i j = Ok (data, w)
         ∧ flds' !! name = Some (grow W cur data)).
Proof using Hrays Hwidth Hfirst.
  induction names as [|name rest IH]; intros flds ws flds' ws' Hnd Hrect H.
  - simpl in H. injection H as <- <-. split; [done|].
    intros name Hin. by apply elem_of_nil in Hin.
  - simpl in H. inv_bind H. destruct x as [data w].
    inv_bind H. inv_bind H.
    apply NoDup_cons in Hnd as [Hnotin Hnd].
    pose proof (poi_data_length _ _ _ _ _ _ Hx) as Hlen.
    apply (f_equal (λ o, o)) in Hx0.
    assert (flds !! name = Some x) as Hcur.
    { unfold getitem in Hx0. by destruct (flds !! name); simplify_eq. }
    rewrite (put_field_grow x data) in Hx1;
      [|eapply Hrect; [left|done]|done].
    injection Hx1 as <-.
    apply IH in H as [Hout Hin]; [|done|].
    + split.
      * intros name' Hn'. apply not_elem_of_cons in Hn' as [Hne Hn'].
        rewrite Hout by done. by apply lookup_insert_ne.
      * intros name' Hn'. apply elem_of_cons in Hn' as [->|Hn'].
        -- exists x, data, w. split; [done|]. split; [done|].
           rewrite Hout by done. apply lookup_insert_eq.
        -- destruct (Hin name' Hn') as (cur & d & w' & H1 & H2 & H3).
           exists cur, d, w'. split; [|done].
           rewrite lookup_insert_ne in H1; [done|]. by intros ->.
    + intros name' cur Hn' Hl.
      rewrite lookup_insert_ne in Hl by (by intros ->).
      eapply Hrect; [by right|done].
Qed.

Lemma put_fields_total i j names : ∀ flds ws,
  (∀ name, name ∈ names → ∃ cur, flds !! name = Some cur
     ∧ rect n (poi.npulses_max p) cur) →
  NoDup names →
  (∀ name, name ∈ names →
     ∃ data w, poi_data s name i j = Ok (data, w)) →
  ∃ flds' ws', put_fields p s i j names flds ws = Ok (flds', ws').
Proof using Hrays Hwidth Hfirst.
  induction names as [|name rest IH]; intros flds ws Hrect Hnd Hdata.
  - simpl. eauto.
  - simpl. destruct (Hdata name) as (data & w & Hd); [left|].
    destruct (Hrect name) as (cur & Hcur & Hr); [left|].
    apply NoDup_cons in Hnd as [Hnotin Hnd].
    rewrite Hd, Ok_bind. rewrite Hcur. unfold getitem. rewrite Ok_bind.
    rewrite (put_field_grow cur data), Ok_bind;
      [|done|by eapply poi_data_length].
    apply IH; [|done|].
    + intros name' Hn'. destruct (Hrect name') as (c & Hc & Hrc); [by right|].
      exists c. rewrite lookup_insert_ne by (by intros ->). done.
    + intros name' Hn'. apply Hdata. by right.
Qed.

Lemma put_Doppler_inv i cur src new :
  (∀ a, cur = Some a → rect n (poi.npulses_max p) a) →
  put_Doppler p s i cur src = Ok new →
  match cur with
  | None => new = None
  | Some a => ∃ data, length data = psr.npulses_max s
                      ∧ new = Some (grow W a data)
  end.
Proof using Hrays Hwidth Hfirst.
  intros Hr H. unfold put_Doppler in H. destruct cur as [a|].
  - specialize (Hr a eq_refl).
    inv_bind H. inv_bind H. rename x0 into raw.
    rewrite (np_size_rect _ _ _ Hr) in H.
    destruct (decide (n * poi.npulses_max p = 0)) as [Hz|Hnz].
    + assert (n = 0) as Hn0 by nia. specialize (Hfirst Hn0).
      inv_bind H. apply reshape_row_Ok in Hx1 as [-> Hlen].
      injection H as <-. exists raw. split; [congruence|].
      destruct Hr as [Hl _]. rewrite Hn0 in Hl.
      apply nil_length_inv in Hl as ->.
      unfold grow. simpl. rewrite pad_id; [done|lia].
    + inv_bind H. apply reshape_row_Ok in Hx1 as [-> Hlen].
      inv_bind H. injection H as <-. exists raw. split; [done|].
      rewrite Hrays in Hx1.
      rewrite put_nonempty_grow in Hx1; [|done|lia|done].
      by injection Hx1 as <-.
  - by injection H as <-.
Qed.

Lemma put_Doppler_total i cur src :
  (∀ a, cur = Some a → rect n (poi.npulses_max p) a) →
  axis_at s cur src i = true →
  ∃ new, put_Doppler p s i cur src = Ok new.
Proof using Hrays Hwidth Hfirst.
  intros Hr Hfit. unfold put_Doppler. destruct cur as [a|]; [|eauto].
  specialize (Hr a eq_refl). unfold axis_at in Hfit.
  destruct src as [d|]; [|done]. rewrite Ok_bind. unfold index.
  destruct (d !! i) as [raw|]; [|done]. rewrite Ok_bind.
  apply Nat.eqb_eq in Hfit.
  rewrite (np_size_rect _ _ _ Hr).
  destruct (decide (n * poi.npulses_max p = 0)) as [Hz|Hnz].
  - assert (n = 0) as Hn0 by nia. specialize (Hfirst Hn0).
    rewrite reshape_row_same, Ok_bind by congruence. eauto.
  - rewrite reshape_row_same, Ok_bind by done.
    rewrite Hrays, put_nonempty_grow, Ok_bind; [eauto|done|lia|done].
Qed.
End Put.

(** ** One append *)

Lemma count_row_nrays p l t : poi.nrays (count_row p l t) = S (poi.nrays p).
Proof. reflexivity. Qed.

(** What a successful [append] does to a well-formed record. *)
Lemma append_inv names s l i j t p p' ws :
  poi_ok names p →
  (poi.nrays p = 0 → poi.npulses_max p = psr.npulses_max s) →
  append names s l i j t p = Ok (p', ws) →
  poi_ok names p'
  ∧ poi.nrays p' = S (poi.nrays p)
  ∧ poi.npulses_max p' = poi.npulses_max p `max` psr.npulses_max s
  ∧ poi.range p' = poi.range p
  ∧ (∀ name cur, poi.fields p !! name = Some cur →
       ∃ data w, poi_data s name i j = Ok (data, w)
         ∧ poi.fields p' !! name = Some (grow (poi.npulses_max p') cur data)).
Proof.
  intros Hok Hfirst H. unfold append in H.
  inv_bind H. destruct x as [flds ws0]. inv_bind H. inv_bind H.
  injection H as <- <-.
  destruct Hok as [Ht Ha He Hr Hg Hs Hrps Hse Hw Hnd Hdom Hf Hv Hfr].
  apply (put_fields_inv _ s (poi.nrays p)) in Hx; simpl; try done;
    [|intros name cur _ Hl; by eapply Hf].
  destruct Hx as [Hout Hin].
  apply (put_Doppler_inv _ s (poi.nrays p)) in Hx0; simpl; try done.
  apply (put_Doppler_inv _ s (poi.nrays p)) in Hx1; simpl; try done.
  simpl in Hx0, Hx1.
  assert (∀ name cur, poi.fields p !! name = Some cur →
       ∃ data w, poi_data s name i j = Ok (data, w)
         ∧ flds !! name
           = Some (grow (poi.npulses_max p `max` psr.npulses_max s) cur data))
    as Hfields.
  { intros name cur Hl.
    destruct (Hin name) as (cur' & data & w & H1 & H2 & H3).
    { apply Hdom. by exists cur. }
    simpl in H1. rewrite Hl in H1. injection H1 as <-. eauto. }
  split; [|done].
  split; simpl.
  - rewrite length_app, Ht. simpl. lia.
  - rewrite length_app, Ha. simpl. lia.
  - rewrite length_app, He. simpl. lia.
  - done.
  - done.
  - done.
  - rewrite Hrps, int32_succ. f_equal. lia.
  - rewrite Hse, int32_succ. f_equal. lia.
  - lia.
  - done.
  - intros name. rewrite Hdom. split.
    + intros [cur Hl]. destruct (Hfields name cur Hl) as (d & w & _ & ->).
      by eexists.
    + intros Hsome. destruct (decide (name ∈ names)) as [Hn|Hn].
      * by apply Hdom.
      * rewrite (Hout name Hn) in Hsome. exact Hsome.
  - intros name a Hl.
    destruct (decide (name ∈ names)) as [Hn|Hn].
    + apply Hdom in Hn as [cur Hcur].
      destruct (Hfields name cur Hcur) as (d & w & Hd & Hnew).
      rewrite Hnew in Hl. injection Hl as <-.
      eapply rect_grow; [by eapply Hf|lia|].
      apply poi_data_length in Hd. lia.
    + rewrite (Hout name Hn) in Hl. simpl in Hl.
      exfalso. apply Hn, Hdom. by eexists.
  - intros a Ha'. destruct (poi.Doppler_velocity p) as [a0|]; [|congruence].
    destruct Hx0 as (d & Hd & Hnew). rewrite Hnew in Ha'. injection Ha' as <-.
    eapply rect_grow; [by apply Hv|lia|lia].
  - intros a Ha'. destruct (poi.Doppler_frequency p) as [a0|]; [|congruence].
    destruct Hx1 as (d & Hd & Hnew). rewrite Hnew in Ha'. injection Ha' as <-.
    eapply rect_grow; [by apply Hfr|lia|lia].
Qed.

(** A well-formed record takes one more row from any scan whose selected
    cell has the declared shape. *)
Lemma append_total names s l i j t p :
  poi_ok names p →
  (poi.nrays p = 0 → poi.npulses_max p = psr.npulses_max s) →
  scan_fits names p s i j = true →
  ∃ p' ws, append names s l i j t p = Ok (p', ws).
Proof.
  intros Hok Hfirst Hfit. unfold append.
  destruct Hok as [Ht Ha He Hr Hg Hs Hrps Hse Hw Hnd Hdom Hf Hv Hfr].
  unfold scan_fits in Hfit.
  apply andb_prop in Hfit as [Hfit Hfreq].
  apply andb_prop in Hfit as [Hflds Hvel].
  rewrite forallb_forall in Hflds.
  destruct (put_fields_total (count_row p l t) s (poi.nrays p)
              eq_refl Hw Hfirst i j names
              (poi.fields (count_row p l t)) [])
    as (flds & ws & ->).
  - intros name Hn. apply Hdom in Hn as [cur Hcur]. exists cur.
    split; [done|]. by eapply Hf.
  - done.
  - intros name Hn. specialize (Hflds name).
    destruct (psr.fields s !! name) as [data|] eqn:Hl.
    + destruct (poi_data_present s name i j data Hl) as [c Hc].
      { apply Hflds. by apply list_elem_of_In. }
      eauto.
    + rewrite poi_data_missing by done. eauto.
  - rewrite Ok_bind.
    destruct (put_Doppler_total (count_row p l t) s (poi.nrays p)
                eq_refl Hw Hfirst i
                (poi.Doppler_velocity (count_row p l t))
                (psr.Doppler_velocity s) Hv Hvel) as [vel Hv'].
    rewrite Hv', Ok_bind.
    destruct (put_Doppler_total (count_row p l t) s (poi.nrays p)
                eq_refl Hw Hfirst i
                (poi.Doppler_frequency (count_row p l t))
                (psr.Doppler_frequency s) Hfr Hfreq) as [fr Hfr'].
    rewrite Hfr', Ok_bind. eauto.
Qed.

(** ** Initialization *)

Lemma prepare_fields_inv s names : ∀ acc flds,
  prepare_fields s names acc = Ok flds →
  NoDup names
  ∧ (∀ name, name ∈ names → acc !! name = None ∧ flds !! name = Some [])
  ∧ (∀ name, name ∉ names → flds !! name = acc !! name).
Proof.
  induction names as [|name rest IH]; intros acc flds H; simpl in H.
  - injection H as <-. split; [constructor|]. split; [|done].
    intros name Hn. by apply elem_of_nil in Hn.
  - inv_bind H. destruct (decide (is_Some (acc !! name))) as [|Hnone]; [done|].
    apply IH in H as (Hnd & Hin & Hout).
    assert (name ∉ rest) as Hfresh.
    { intros Hn. destruct (Hin name Hn) as [Hl _].
      by rewrite lookup_insert_eq in Hl. }
    split; [by constructor|]. split.
    + intros name' Hn'. apply elem_of_cons in Hn' as [->|Hn'].
      * split; [by apply eq_None_not_Some|].
        rewrite Hout by done. apply lookup_insert_eq.
      * destruct (Hin name' Hn') as [Hl Hl']. split; [|done].
        rewrite lookup_insert_ne in Hl; [done|]. by intros ->.
    + intros name' Hn'. apply not_elem_of_cons in Hn' as [Hne Hn'].
      rewrite Hout by done. by apply lookup_insert_ne.
Qed.

Lemma initialize_inv s names l t p :
  initialize s names l t = Ok p →
  0 < psr.npulses_max s →
  poi_ok names p ∧ poi.nrays p = 0
  ∧ poi.npulses_max p = psr.npulses_max s
  ∧ poi.range p = [r l].
Proof.
  intros H Hpos. unfold initialize in H. inv_bind H. injection H as <-.
  apply prepare_fields_inv in Hx as (Hnd & Hin & Hout).
  split; [|done]. split; simpl; try done.
  - intros name. split.
    + intros Hn. destruct (Hin name Hn) as [_ ->]. by eexists.
    + intros Hsome. destruct (decide (name ∈ names)) as [|Hn]; [done|].
      rewrite (Hout name Hn), lookup_empty in Hsome. by destruct Hsome.
  - intros name a Hl. destruct (decide (name ∈ names)) as [Hn|Hn].
    + destruct (Hin name Hn) as [_ Hl']. rewrite Hl' in Hl.
      injection Hl as <-. split; [done|constructor].
    + by rewrite (Hout name Hn), lookup_empty in Hl.
  - intros a Ha. destruct (psr.Doppler_velocity s); simpl in Ha; [|done].
    injection Ha as <-. split; [done|constructor].
  - intros a Ha. destruct (psr.Doppler_frequency s); simpl in Ha; [|done].
    injection Ha as <-. split; [done|constructor].
Qed.

(** ** The locator *)

Lemma Qltb_lt x y : Qltb x y = true ↔ (x < y)%Q.
Proof.
  unfold Qltb. rewrite negb_true_iff, <- not_true_iff_false, Qle_bool_iff.
  split; [apply Qnot_le_lt | apply Qlt_not_le].
Qed.

Lemma Qltb_ge x y : Qltb x y = false ↔ (y <= x)%Q.
Proof. unfold Qltb. by rewrite negb_false_iff, Qle_bool_iff. Qed.





Lemma min_from_spec (t : list Q) : ∀ best,
  (min_from best t = best ∨ min_from best t ∈ t)
  ∧ (min_from best t <= best)%Q
  ∧ (∀ y, y ∈ t → (min_from best t <= y)%Q).
Proof.
  induction t as [|x t IH]; intros best; simpl.
  - split_and!; [by left|lra|]. intros y Hy. by apply elem_of_nil in Hy.
  - destruct (IH (if Qltb x best then x else best)) as (Hin & Hle & Hall).
    destruct (Qltb x best) eqn:Hcmp.
    + apply Qltb_lt in Hcmp. split_and!.
      * right. destruct Hin as [->|Hin]; [left|by right].
      * lra.
      * intros y Hy. apply elem_of_cons in Hy as [->|Hy]; [done|by apply Hall].
    + apply Qltb_ge in Hcmp. split_and!.
      * destruct Hin as [Hin|Hin]; [by left|right; by right].
      * done.
      * intros y Hy. apply elem_of_cons in Hy as [->|Hy]; [lra|by apply Hall].
Qed.

(** [np.min] returns an entry of the array that no entry is below. *)
Lemma np_min_spec (l : list Q) d :
  np_min l = Ok d → d ∈ l ∧ ∀ y, y ∈ l → (d <= y)%Q.
Proof.
  destruct l as [|x t]; [done|]. intros [= <-].
  destruct (min_from_spec t x) as (Hin & Hle & Hall). split.
  - destruct Hin as [->|Hin]; [left|by right].
  - intros y Hy. apply elem_of_cons in Hy as [->|Hy]; [done|by apply Hall].
Qed.



(** ** Calls *)

Section Calls.
Context (np_pi : Q) (np_sqrt np_cos np_sin : Q → Q).
Context (geographic_to_cartesian : Q → Q → Q → Q → Q * Q).
Context (cartesian_to_antenna : Q → Q → Q → Q * Q * Q).
Context (antenna_to_cartesian : Q → Q → Q → Q * Q * Q).
Context (cartesian_to_geographic : Q → Q → Q → Q → Q * Q).

Local Abbreviation resolve :=
  (resolve np_pi np_sqrt np_cos np_sin geographic_to_cartesian
     cartesian_to_antenna antenna_to_cartesian cartesian_to_geographic).
Local Abbreviation process_scan :=
  (process_scan np_pi np_sqrt np_cos np_sin geographic_to_cartesian
     cartesian_to_antenna antenna_to_cartesian cartesian_to_geographic).
Local Abbreviation process_spectra_point :=
  (process_spectra_point np_pi np_sqrt np_cos np_sin
     geographic_to_cartesian cartesian_to_antenna antenna_to_cartesian
     cartesian_to_geographic).
Local Abbreviation run_to :=
  (run_to np_pi np_sqrt np_cos np_sin geographic_to_cartesian
     cartesian_to_antenna antenna_to_cartesian cartesian_to_geographic).
Local Abbreviation reachable :=
  (reachable np_pi np_sqrt np_cos np_sin geographic_to_cartesian
     cartesian_to_antenna antenna_to_cartesian cartesian_to_geographic).

(** A processing call that hands back a dataset located a cell and
    appended its spectrum. *)
Lemma process_scan_inv dscfg st radarnr s out st' ds :
  process_scan dscfg st radarnr s = Ok (out, st') →
  new_dataset out = Some ds →
  ∃ l i j t st1 g1 p ws,
    resolve dscfg s = Ok l
    ∧ locate s l = Ok (inr (i, j))
    ∧ psr.time s !! i = Some t
    ∧ ensure_initialized (field_names dscfg) s l (psr.time_units s + t)%Q st
      = Ok st1
    ∧ global_data st1 = Some g1
    ∧ append (field_names dscfg) s l i j (psr.time_units s + t)%Q
        (psr_poi g1) = Ok (p, ws)
    ∧ ds = emit (set_psr_poi g1 p) false
    ∧ ind_rad out = Some radarnr
    ∧ st' = {| initialized := initialized st1;
               global_data := Some (set_psr_poi g1 p) |}.
Proof.
  intros H Hds. unfold process_scan in H.
  inv_bind H. rename x into l. inv_bind H. destruct x as [w|[i j]].
  - injection H as <- <-. discriminate.
  - inv_bind H. rename x into t. inv_bind H. rename x into st1.
    inv_bind H. rename x into g1. inv_bind H. destruct x as [p ws].
    injection H as <- <-. simpl in Hds. injection Hds as <-.
    exists l, i, j, t, st1, g1, p, ws.
    unfold index in Hx1. destruct (psr.time s !! i) eqn:Ht; [|done].
    injection Hx1 as ->.
    unfold getitem in Hx3. destruct (global_data st1) eqn:Hg; [|done].
    injection Hx3 as ->. done.
Qed.

Lemma ensure_initialized_inv dscfg s l t st st1 :
  state_ok dscfg st →
  (global_data st = None → 0 < psr.npulses_max s) →
  ensure_initialized (field_names dscfg) s l t st = Ok st1 →
  ∃ g1, global_data st1 = Some g1
    ∧ initialized st1 ≠ 0
    ∧ poi_ok (field_names dscfg) (psr_poi g1)
    ∧ poi.range (psr_poi g1) = [(antenna_coordinates_az_el_r g1).2]
    ∧ poi.nrays (psr_poi g1) = rows st
    ∧ (poi.nrays (psr_poi g1) = 0 →
       poi.npulses_max (psr_poi g1) = psr.npulses_max s)
    ∧ (∀ g, global_data st = Some g → g1 = g).
Proof.
  intros Hok Hpos H. unfold ensure_initialized in H.
  unfold state_ok in Hok. unfold rows.
  destruct (decide (initialized st = 0)) as [Hz|Hnz].
  - inv_bind H. injection H as <-.
    destruct (global_data st) as [g|]; [by destruct Hok|].
    apply initialize_inv in Hx as (Hp & Hn & Hw & Hr); [|by apply Hpos].
    eexists. split; [done|]. simpl. rewrite Hr. done.
  - injection H as <-.
    destruct (global_data st) as [g|]; [|done].
    destruct Hok as (Hi & _ & Hp & Hn & Hr).
    exists g. split_and!; try done.
    + lia.
    + by intros ? [= ->].
Qed.

(** The record a processing call hands back. *)
Lemma process_scan_record dscfg st radarnr s out st' ds :
  state_ok dscfg st →
  (global_data st = None → 0 < psr.npulses_max s) →
  process_scan dscfg st radarnr s = Ok (out, st') →
  new_dataset out = Some ds →
  ∃ g', global_data st' = Some g'
    ∧ ds = emit g' false
    ∧ initialized st' ≠ 0
    ∧ poi_ok (field_names dscfg) (psr_poi g')
    ∧ poi.range (psr_poi g') = [(antenna_coordinates_az_el_r g').2]
    ∧ poi.nrays (psr_poi g') = S (rows st)
    ∧ (∀ g, global_data st = Some g →
         poi.npulses_max (psr_poi g')
         = poi.npulses_max (psr_poi g) `max` psr.npulses_max s
         ∧ antenna_coordinates_az_el_r g' = antenna_coordinates_az_el_r g
         ∧ point_coordinates_WGS84_lon_lat_alt g'
           = point_coordinates_WGS84_lon_lat_alt g)
    ∧ (global_data st = None →
         poi.npulses_max (psr_poi g') = psr.npulses_max s).
Proof.
  intros Hok Hpos H Hds.
  destruct (process_scan_inv _ _ _ _ _ _ _ H Hds)
    as (l & i & j & t & st1 & g1 & p & ws
        & Hres & Hloc & Ht & Hinit & Hg1 & Happ & -> & Hind & ->).
  destruct (ensure_initialized_inv _ _ _ _ _ _ Hok Hpos Hinit)
    as (g1' & Hg1' & Hi1 & Hp1 & Hr1 & Hn1 & Hw1 & Hsame).
  rewrite Hg1 in Hg1'. injection Hg1' as <-.
  destruct (append_inv _ _ _ _ _ _ _ _ _ Hp1 Hw1 Happ)
    as (Hp & Hn & Hw & Hr & Hf).
  exists (set_psr_poi g1 p). simpl. split_and!; try done.
  - by rewrite Hr.
  - lia.
  - intros g Hg. by rewrite <- (Hsame g Hg).
  - intros Hnone. rewrite Hw. unfold rows in Hn1. rewrite Hnone in Hn1.
    rewrite (Hw1 Hn1). lia.
Qed.

(** A processing call that hands back no dataset leaves [dscfg] alone. *)
Lemma process_scan_nothing dscfg st radarnr s out st' :
  process_scan dscfg st radarnr s = Ok (out, st') →
  new_dataset out = None →
  st' = st ∧ ∃ w, out = nothing [w].
Proof.
  intros H Hnone. unfold process_scan in H.
  apply bind_Ok in H as (loc & _ & H).
  apply bind_Ok in H as ([w|[i j]] & _ & H).
  - injection H as <- <-. eauto.
  - apply bind_Ok in H as (t & _ & H).
    apply bind_Ok in H as (st1 & _ & H).
    apply bind_Ok in H as (g1 & _ & H).
    apply bind_Ok in H as ([p ws] & _ & H).
    injection H as <- <-. discriminate.
Qed.

Lemma scans_have_pulses_lookup radars i s :
  scans_have_pulses (Some radars) = true →
  radars !! i = Some (Some s) → 0 < psr.npulses_max s.
Proof.
  intros H Hl. simpl in H. rewrite forallb_forall in H.
  specialize (H (Some s)). simpl in H. apply Nat.ltb_lt, H.
  apply list_elem_of_In. by eapply list_elem_of_lookup_2.
Qed.

(** The ways in which a call returns. *)
Lemma process_spectra_point_cases ps dscfg st radars out st' :
  process_spectra_point ps dscfg st radars = Ok (out, st') →
  (st' = st ∧ new_dataset out = None)
  ∨ (st' = st ∧ ps = 2%Z ∧ ∃ radarnr g,
       last (datatype dscfg).*1 = Some radarnr
       ∧ initialized st ≠ 0 ∧ global_data st = Some g
       ∧ out = {| new_dataset := Some (emit g true);
                  ind_rad := Some radarnr; warnings := [] |})
  ∨ (ps ≠ 0%Z ∧ ps ≠ 2%Z ∧ ∃ radarnr l s ds,
       last (datatype dscfg).*1 = Some radarnr
       ∧ radars = Some l ∧ l !! radarnr = Some (Some s)
       ∧ process_scan dscfg st radarnr s = Ok (out, st')
       ∧ new_dataset out = Some ds).
Proof.
  intros H. unfold process_spectra_point in H.
  destruct (decide (ps = 0%Z)); [left; by injection H as <- <-|].
  inv_bind H. rename x into radarnr.
  assert (last (datatype dscfg).*1 = Some radarnr) as Hnr.
  { unfold local in Hx. by destruct (last _); simplify_eq. }
  destruct (decide (ps = 2%Z)).
  - destruct (decide (initialized st = 0)); [left; by injection H as <- <-|].
    inv_bind H. injection H as <- <-. right. left.
    split_and!; try done. exists radarnr, x. split_and!; try done.
    unfold getitem in Hx0. by destruct (global_data st); simplify_eq.
  - destruct radars as [l|]; [|left; by injection H as <- <-].
    inv_bind H. destruct x as [s|]; [|left; by injection H as <- <-].
    unfold index in Hx0. destruct (l !! radarnr) eqn:Hl; [|done].
    injection Hx0 as ->.
    destruct (new_dataset out) as [ds|] eqn:Hds.
    + right. right. split_and!; try done.
      exists radarnr, l, s, ds. done.
    + left. by destruct (process_scan_nothing _ _ _ _ _ _ H Hds) as [-> _].
Qed.

(** Every call that does not raise keeps [dscfg] well formed. *)
Lemma process_spectra_point_ok ps dscfg st radars out st' :
  state_ok dscfg st → scans_have_pulses radars = true →
  process_spectra_point ps dscfg st radars = Ok (out, st') →
  state_ok dscfg st'.
Proof.
  intros Hok Hpos H.
  apply process_spectra_point_cases in H
    as [[-> _]|[(-> & _)|(_ & _ & nr & l & s & ds & Hnr & -> & Hl & H & Hds)]];
    try done.
  pose proof (scans_have_pulses_lookup _ _ _ Hpos Hl) as Hs.
  destruct (process_scan_record _ _ _ _ _ _ _ Hok (λ _, Hs) H Hds)
    as (g' & Hg' & _ & Hi & Hp & Hr & Hn & _).
  unfold state_ok. rewrite Hg'. split_and!; try done.
  all: try (by eexists); try lia.
Qed.

Lemma run_to_ok dscfg widths st : run_to dscfg widths st → state_ok dscfg st.
Proof.
  induction 1 as [|widths st c out st' _ IH Hpos Hcall].
  - reflexivity.
  - by eapply process_spectra_point_ok.
Qed.

Lemma reachable_ok dscfg st : reachable dscfg st → state_ok dscfg st.
Proof. intros [widths H]. by eapply run_to_ok. Qed.


(** ** The claims *)

Lemma grow_narrower w' cur data :
  length data < w' →
  Forall (λ cells, length cells = w') cur →
  ∃ appended, grow w' cur data = cur ++ [appended]
    ∧ length appended = w'
    ∧ take (length data) appended = data
    ∧ ∀ c, length data ≤ c < w' → masked_at appended c.
Proof.
  intros Hlt Hall. exists (pad w' data). split_and!.
  - unfold grow. f_equal.
    rewrite <- (list_fmap_id cur) at 2. apply Forall_fmap_ext_1.
    eapply Forall_impl; [exact Hall|].
    intros x Hx. simpl in *. rewrite pad_id; [done|lia].
  - apply length_pad. lia.
  - unfold pad. by rewrite take_app_length.
  - intros c Hc. by apply pad_masked.
Qed.

Lemma grow_wider w' w cur data :
  w' < w → length data = w →
  Forall (λ cells, length cells = w') cur →
  length (grow w cur data) = S (length cur)
  ∧ (∀ k old, cur !! k = Some old →
       ∃ widened, grow w cur data !! k = Some widened
         ∧ length widened = w
         ∧ take w' widened = old
         ∧ ∀ c, w' ≤ c < w → masked_at widened c)
  ∧ grow w cur data !! length cur = Some data.
Proof.
  intros Hlt Hd Hall. unfold grow. split_and!.
  - rewrite length_app, length_fmap. simpl. lia.
  - intros k old Hk.
    pose proof (Forall_lookup_1 _ _ _ _ Hall Hk) as Hlen. simpl in Hlen.
    exists (pad w old). split_and!.
    + rewrite lookup_app_l.
      * by rewrite list_lookup_fmap, Hk.
      * rewrite length_fmap. by eapply lookup_lt_Some.
    + apply length_pad. lia.
    + unfold pad. rewrite <- Hlen. by rewrite take_app_length.
    + intros c Hc. apply pad_masked. lia.
  - rewrite lookup_app_r by (by rewrite length_fmap).
    rewrite length_fmap, Nat.sub_diag. simpl.
    rewrite pad_id; [done|lia].
Qed.

(** C1. Padding correctness. A processing call appends to a record that
    already holds rows, of width [W'], the spectrum [data] of the located
    cell of a scan of width [W]. For every tracked field: if [W < W'] the
    new buffer is the old one followed by one row of width [W'] that
    starts with [data] and is masked on the columns [W, W'); if [W' < W]
    the new buffer has one more row, the record is [W] wide, every prior
    row is kept on its columns below [W'] and masked on [W', W), and the
    last row is [data] in full. *)
Theorem padding_correctness dscfg st g radarnr s out st' ds name cur :
  reachable dscfg st →
  global_data st = Some g →
  process_scan dscfg st radarnr s = Ok (out, st') →
  new_dataset out = Some ds →
  poi.fields (psr_poi g) !! name = Some cur →
  ∃ l i j data w new,
    resolve dscfg s = Ok l
    ∧ locate s l = Ok (inr (i, j))
    ∧ poi_data s name i j = Ok (data, w)
    ∧ length data = psr.npulses_max s
    ∧ poi.fields (radar_out ds) !! name = Some new
    ∧ (psr.npulses_max s < poi.npulses_max (psr_poi g) →
         poi.npulses_max (radar_out ds) = poi.npulses_max (psr_poi g)
         ∧ ∃ appended, new = cur ++ [appended]
             ∧ length appended = poi.npulses_max (psr_poi g)
             ∧ take (psr.npulses_max s) appended = data
             ∧ ∀ c, psr.npulses_max s ≤ c < poi.npulses_max (psr_poi g) →
                    masked_at appended c)
    ∧ (poi.npulses_max (psr_poi g) < psr.npulses_max s →
         poi.npulses_max (radar_out ds) = psr.npulses_max s
         ∧ length new = S (length cur)
         ∧ (∀ k old, cur !! k = Some old →
              ∃ widened, new !! k = Some widened
                ∧ length widened = psr.npulses_max s
                ∧ take (poi.npulses_max (psr_poi g)) widened = old
                ∧ ∀ c, poi.npulses_max (psr_poi g) ≤ c < psr.npulses_max s →
                       masked_at widened c)
         ∧ new !! length cur = Some data).
Proof.
  intros Hreach Hg H Hds Hcur.
  pose proof (reachable_ok _ _ Hreach) as Hok.
  destruct (process_scan_inv _ _ _ _ _ _ _ H Hds)
    as (l & i & j & t & st1 & g1 & p & ws
        & Hres & Hloc & Ht & Hinit & Hg1 & Happ & -> & Hind & ->).
  destruct (ensure_initialized_inv _ _ _ _ _ _ Hok
              ltac:(by rewrite Hg) Hinit)
    as (g1' & Hg1' & Hi1 & Hp1 & Hr1 & Hn1 & Hw1 & Hsame).
  rewrite Hg1 in Hg1'. injection Hg1' as <-.
  rewrite (Hsame g Hg) in *. clear Hsame.
  destruct (append_inv _ _ _ _ _ _ _ _ _ Hp1 Hw1 Happ)
    as (Hp & Hn & Hw & Hr & Hf).
  destruct (Hf name cur Hcur) as (data & w & Hdata & Hnew).
  pose proof (poi_data_length _ _ _ _ _ _ Hdata) as Hlen.
  destruct (ok_fields _ _ Hp1 name cur Hcur) as [_ Hall].
  exists l, i, j, data, w, (grow (poi.npulses_max p) cur data).
  simpl. split_and!; try done.
  - intros Hlt. split; [lia|]. rewrite Hw.
    replace (poi.npulses_max (psr_poi g) `max` psr.npulses_max s)
      with (poi.npulses_max (psr_poi g)) by lia.
    rewrite <- Hlen. apply grow_narrower; [lia|done].
  - intros Hlt. split; [lia|]. rewrite Hw.
    replace (poi.npulses_max (psr_poi g) `max` psr.npulses_max s)
      with (psr.npulses_max s) by lia.
    by apply grow_wider.
Qed.

Lemma max_list_snoc (l : list nat) x : max_list (l ++ [x]) = max_list l `max` x.
Proof. induction l as [|y l IH]; simpl; [lia|]. rewrite IH. lia. Qed.

(** The width of the record is the largest width appended so far. *)
Lemma run_to_width dscfg widths st :
  run_to dscfg widths st →
  match global_data st with
  | None => widths = []
  | Some g => poi.npulses_max (psr_poi g) = max_list widths
  end.
Proof.
  induction 1 as [|widths st c out st' Hrun IH Hpos Hcall]; [done|].
  pose proof (run_to_ok _ _ _ Hrun) as Hok.
  unfold appended_width.
  apply process_spectra_point_cases in Hcall
    as [[-> Hnone]|[(-> & _ & nr & g & _ & _ & Hg & ->)
                   |(_ & _ & nr & l & s & ds & Hnr & Hl & Hlk & H & Hds)]].
  - rewrite Hnone, app_nil_r. exact IH.
  - simpl. destruct (scan_of dscfg c); by rewrite app_nil_r.
  - assert (scan_of dscfg c = Some s) as ->.
    { unfold scan_of. rewrite Hnr, Hl. simpl. by rewrite Hlk. }
    rewrite Hds.
    pose proof H as H'. rewrite Hl in Hpos.
    pose proof (scans_have_pulses_lookup _ _ _ Hpos Hlk) as Hs.
    destruct (process_scan_record _ _ _ _ _ _ _ Hok (λ _, Hs) H Hds)
      as (g' & Hg' & -> & _ & _ & _ & _ & Hsome & Hnone).
    simpl. rewrite Hg', max_list_snoc.
    destruct (global_data st) as [g|].
    + destruct (Hsome g eq_refl) as (-> & _). by rewrite IH.
    + rewrite (Hnone eq_refl), IH. simpl. lia.
Qed.

(** C2. Monotonic width. After any run the tracked maximum pulse width
    of the record is the largest pulse width among the rows appended so
    far; one more call never lowers it, and a call that appends a row
    of a scan [s] leaves it at the maximum of its old value and the
    pulse width of [s]. *)
Theorem monotonic_width dscfg widths st g c out st' :
  run_to dscfg widths st →
  global_data st = Some g →
  scans_have_pulses (radar_list c) = true →
  process_spectra_point (procstatus c) dscfg st (radar_list c)
    = Ok (out, st') →
  poi.npulses_max (psr_poi g) = max_list widths
  ∧ ∃ g', global_data st' = Some g'
      ∧ poi.npulses_max (psr_poi g) ≤ poi.npulses_max (psr_poi g')
      ∧ poi.npulses_max (psr_poi g')
        = max_list (widths ++ appended_width dscfg c out)
      ∧ ∀ ds s, new_dataset out = Some ds → final ds = false →
          scan_of dscfg c = Some s →
          poi.npulses_max (psr_poi g')
          = poi.npulses_max (psr_poi g) `max` psr.npulses_max s.
Proof.
  intros Hrun Hg Hpos Hcall.
  pose proof (run_to_width _ _ _ Hrun) as Hw. rewrite Hg in Hw.
  split; [done|].
  pose proof (run_call _ _ _ _ _ _ _ _ _ _ _ _ _ _ Hrun Hpos Hcall) as Hrun'.
  pose proof (run_to_width _ _ _ Hrun') as Hw'.
  pose proof (run_to_ok _ _ _ Hrun) as Hok.
  apply process_spectra_point_cases in Hcall
    as [[-> Hnone]|[(-> & _ & nr & g0 & _ & _ & Hg0 & ->)
                   |(_ & _ & nr & l & s & ds & Hnr & Hl & Hlk & H & Hds)]].
  - exists g. rewrite Hg in Hw'. split_and!; try done.
    intros ds s Hds. congruence.
  - exists g. rewrite Hg in Hw'. split_and!; try done.
    intros ds s [= <-]. done.
  - rewrite Hl in Hpos.
    pose proof (scans_have_pulses_lookup _ _ _ Hpos Hlk) as Hs.
    destruct (process_scan_record _ _ _ _ _ _ _ Hok (λ _, Hs) H Hds)
      as (g' & Hg' & -> & _ & _ & _ & _ & Hsome & _).
    destruct (Hsome g Hg) as (Hmax & _).
    exists g'. rewrite Hg' in Hw'. split_and!; try done; [lia|].
    intros ds s0 _ _ Hscan.
    assert (scan_of dscfg c = Some s) as Hs0.
    { unfold scan_of. rewrite Hnr, Hl. simpl. by rewrite Hlk. }
    congruence.
Qed.


(** C10. Single sweep, single gate. The record as initialization leaves
    it, and the record after every appended row (as long as the row
    count fits the 32-bit counters), has one sweep and one gate, its
    range axis holds the one fixed range of the point, its per-sweep ray
    count is the row count and its sweep-end ray index is the row count
    minus one. *)
Theorem single_sweep_single_gate_kept dscfg st radarnr s out st' ds :
  reachable dscfg st →
  (global_data st = None → 0 < psr.npulses_max s) →
  process_scan dscfg st radarnr s = Ok (out, st') →
  new_dataset out = Some ds →
  (Z.of_nat (poi.nrays (radar_out ds)) < 2 ^ 31)%Z →
  single_sweep_single_gate (radar_out ds)
    (out_antenna_coordinates_az_el_r ds).2
  ∧ (∀ g, global_data st = Some g →
       out_antenna_coordinates_az_el_r ds = antenna_coordinates_az_el_r g)
  ∧ (∀ s0 names l t p, initialize s0 names l t = Ok p →
       poi.nrays p = 0 ∧ single_sweep_single_gate p (r l)).
Proof.
  intros Hreach Hpos H Hds Hbound.
  pose proof (reachable_ok _ _ Hreach) as Hok.
  destruct (process_scan_record _ _ _ _ _ _ _ Hok Hpos H Hds)
    as (g' & Hg' & -> & _ & Hp & Hr & Hn & Hsome & _).
  simpl in *. split_and!.
  - destruct Hp as [_ _ _ _ Hg Hs Hrps Hse _ _ _ _ _ _].
    unfold single_sweep_single_gate. split_and!; try done.
    + rewrite Hrps. apply int32_small. lia.
    + rewrite Hse. apply int32_small. lia.
  - intros g Hg. by destruct (Hsome g Hg) as (_ & -> & _).
  - intros s0 names l t p Hinit. unfold initialize in Hinit.
    inv_bind Hinit. injection Hinit as <-. done.
Qed.




(** C7. Derived altitude. For a point given by longitude and latitude
    and projected to [(x, y)]: when the true altitude is not to be used,
    the point is resolved at the altitude
    [sensor altitude + sqrt(r^2 + Re^2 + 2 r Re sin(elrad)) - Re] with
    [Re = (4/3) * 6378100], [elrad = ele * pi / 180] and
    [r = sqrt(x^2 + y^2) / cos(elrad)]; otherwise at the altitude of the
    configuration. *)
Theorem derived_altitude dscfg s plon plat x y :
  latlon dscfg = Some true →
  lon dscfg = Some plon → lat dscfg = Some plat →
  geographic_to_cartesian plon plat (psr.longitude s) (psr.latitude s)
    = (x, y) →
  (∀ pele, truealt dscfg = Some false → ele dscfg = Some pele →
     let effective_radius := (4 / 3 * 6378100)%Q in
     let elrad := (pele * np_pi / 180)%Q in
     let r_ground := np_sqrt (x ^ 2 + y ^ 2)%Q in
     let r_slant := (r_ground / np_cos elrad)%Q in
     let derived :=
       (psr.altitude s
        + np_sqrt (r_slant ^ 2 + effective_radius ^ 2
                   + 2 * r_slant * effective_radius * np_sin elrad)
        - effective_radius)%Q in
     altitude_of_point np_pi np_sqrt np_cos np_sin dscfg s x y
       (default 0%Q (alt dscfg)) = Ok derived
     ∧ ∃ l, resolve dscfg s = Ok l
         ∧ (r l, az l, el l)
           = cartesian_to_antenna x y (derived - psr.altitude s)%Q)
  ∧ (truealt dscfg ≠ Some false →
     altitude_of_point np_pi np_sqrt np_cos np_sin dscfg s x y
       (default 0%Q (alt dscfg)) = Ok (default 0%Q (alt dscfg))
     ∧ ∃ l, resolve dscfg s = Ok l
         ∧ (r l, az l, el l)
           = cartesian_to_antenna x y
               (default 0%Q (alt dscfg) - psr.altitude s)%Q).
Proof.
  intros Hlatlon Hlon Hlat Hxy. split.
  - intros pele Htrue Hele effective_radius elrad r_ground r_slant derived.
    assert (altitude_of_point np_pi np_sqrt np_cos np_sin dscfg s x y
              (default 0%Q (alt dscfg)) = Ok derived) as Halt.
    { unfold altitude_of_point. rewrite Htrue, Hele. reflexivity. }
    split; [done|].
    unfold resolve. rewrite Hlatlon, Hlon, Hlat. simpl. rewrite Hxy, Halt.
    simpl.
    destruct (cartesian_to_antenna x y (derived - psr.altitude s)%Q)
      as [[pr paz] pel].
    eexists. split; [reflexivity|]. done.
  - intros Htrue.
    assert (altitude_of_point np_pi np_sqrt np_cos np_sin dscfg s x y
              (default 0%Q (alt dscfg)) = Ok (default 0%Q (alt dscfg)))
      as Halt.
    { unfold altitude_of_point.
      destruct (truealt dscfg) as [[]|]; try done. }
    split; [done|].
    unfold resolve. rewrite Hlatlon, Hlon, Hlat. simpl. rewrite Hxy, Halt.
    simpl.
    destruct (cartesian_to_antenna x y
                (default 0%Q (alt dscfg) - psr.altitude s)%Q)
      as [[pr paz] pel].
    eexists. split; [reflexivity|]. done.
Qed.

(** C8. Finalization. Once a run has accumulated a row, a finalize
    call ([procstatus = 2]) hands back the accumulated record with the
    two fixed coordinate tuples and the completion flag set, and leaves
    [dscfg] as it was, so that a further finalize call hands back the
    same again; a call with another [procstatus] never hands back a
    dataset whose completion flag is set. *)
Theorem finalize_idempotent dscfg st g :
  reachable dscfg st →
  global_data st = Some g →
  1 ≤ poi.nrays (psr_poi g)
  ∧ (∃ radarnr, ∀ radars,
       process_spectra_point 2 dscfg st radars
       = Ok ({| new_dataset := Some
                  {| radar_out := psr_poi g;
                     out_point_coordinates_WGS84_lon_lat_alt :=
                       point_coordinates_WGS84_lon_lat_alt g;
                     out_antenna_coordinates_az_el_r :=
                       antenna_coordinates_az_el_r g;
                     final := true |};
                ind_rad := Some radarnr;
                warnings := [] |}, st))
  ∧ (∀ radars radars' out1 st1,
       process_spectra_point 2 dscfg st radars = Ok (out1, st1) →
       st1 = st
       ∧ process_spectra_point 2 dscfg st1 radars' = Ok (out1, st1))
  ∧ (∀ ps radars out st' ds,
       ps ≠ 2%Z →
       process_spectra_point ps dscfg st radars = Ok (out, st') →
       new_dataset out = Some ds → final ds = false).
Proof.
  intros Hreach Hg. pose proof (reachable_ok _ _ Hreach) as Hok.
  unfold state_ok in Hok. rewrite Hg in Hok.
  destruct Hok as (Hinit & [radarnr Hnr] & _ & Hrows & _).
  assert (∀ radars,
    process_spectra_point 2 dscfg st radars
    = Ok ({| new_dataset := Some (emit g true);
             ind_rad := Some radarnr; warnings := [] |}, st)) as Hfin.
  { intros radars. unfold process_spectra_point.
    destruct (decide (2 = 0)%Z) as [|_]; [done|]. rewrite Hnr. simpl.
    destruct (decide (initialized st = 0)); [done|].
    by rewrite Hg. }
  split_and!.
  - done.
  - exists radarnr. exact Hfin.
  - intros radars radars' out1 st1 H. rewrite Hfin in H.
    injection H as <- <-. split; [done|]. apply Hfin.
  - intros ps radars out st' ds Hps H Hds.
    apply process_spectra_point_cases in H
      as [[_ Hnone]|[(_ & ? & _)
                    |(_ & _ & nr & l & s & ds' & _ & _ & _ & H & _)]].
    + congruence.
    + done.
    + destruct (process_scan_inv _ _ _ _ _ _ _ H Hds)
        as (? & ? & ? & ? & ? & ? & ? & ? & _ & _ & _ & _ & _ & _ & -> & _).
      done.
Qed.

Lemma pad_masked_all w ws :
  ws ≤ w → pad w (masked_all_row ws) = masked_all_row w.
Proof.
  intros Hle. unfold pad, masked_all_row. rewrite length_replicate.
  rewrite <- replicate_add. f_equal. lia.
Qed.

(** C9. Missing field. On an initialized run, a processing call on a
    scan that lacks some tracked fields (and is well shaped at the
    selected cell otherwise) does not raise: it appends a row, and for
    each tracked field absent from the scan the spectrum taken for the
    row is all masked and as wide as the scan declares, the row stored
    is all masked, and the array of the field stays rectangular, with
    as many rows as the time axis. *)
Theorem missing_field_masked dscfg st g radarnr s l i j t :
  reachable dscfg st →
  global_data st = Some g →
  resolve dscfg s = Ok l →
  locate s l = Ok (inr (i, j)) →
  psr.time s !! i = Some t →
  scan_fits (field_names dscfg) (psr_poi g) s i j = true →
  ∃ out st' ds,
    process_scan dscfg st radarnr s = Ok (out, st')
    ∧ new_dataset out = Some ds
    ∧ length (poi.time (radar_out ds)) = poi.nrays (radar_out ds)
    ∧ ∀ name, name ∈ field_names dscfg → psr.fields s !! name = None →
        poi_data s name i j
        = Ok (masked_all_row (psr.npulses_max s), [FieldNotInPsr name])
        ∧ ∃ a, poi.fields (radar_out ds) !! name = Some a
            ∧ rect (poi.nrays (radar_out ds))
                (poi.npulses_max (radar_out ds)) a
            ∧ last a
              = Some (masked_all_row (poi.npulses_max (radar_out ds))).
Proof.
  intros Hreach Hg Hres Hloc Ht Hfit.
  pose proof (reachable_ok _ _ Hreach) as Hok.
  unfold state_ok in Hok. rewrite Hg in Hok.
  destruct Hok as (Hinit & _ & Hp & Hrows & _).
  destruct (append_total (field_names dscfg) s l i j
              (psr.time_units s + t)%Q (psr_poi g) Hp ltac:(lia) Hfit)
    as (p & ws & Happ).
  destruct (append_inv _ _ _ _ _ _ _ _ _ Hp ltac:(lia) Happ)
    as (Hp' & Hn & Hw & _ & Hf).
  eexists _, _, (emit (set_psr_poi g p) false). split_and!.
  - unfold process_scan. rewrite Hres, Ok_bind, Hloc, Ok_bind.
    unfold index. rewrite Ht, Ok_bind.
    unfold ensure_initialized. rewrite decide_False by done.
    rewrite Ok_bind, Hg. unfold getitem. rewrite Ok_bind.
    unfold field_names in Happ. rewrite Happ, Ok_bind. reflexivity.
  - done.
  - simpl. by destruct Hp'.
  - intros name Hin Hmiss. simpl.
    split; [by apply poi_data_missing|].
    destruct (proj1 (ok_dom _ _ Hp name) Hin) as [cur Hcur].
    destruct (Hf name cur Hcur) as (data & w & Hdata & Hnew).
    rewrite poi_data_missing in Hdata by done.
    injection Hdata as <- <-.
    eexists. split; [exact Hnew|]. split.
    + by eapply ok_fields.
    + unfold grow. rewrite last_snoc. f_equal.
      apply pad_masked_all. lia.
Qed.

(** In antenna mode the tolerances are those of the configuration, 0.5
    degree, 0.5 degree and 50 m when it has none. *)
Lemma antenna_tolerances dscfg s l :
  default false (latlon dscfg) = false →
  resolve dscfg s = Ok l →
  azi_tol l = Some (default 0.5%Q (AziTol dscfg))
  ∧ ele_tol l = Some (default 0.5%Q (EleTol dscfg))
  ∧ rng_tol l = Some (default 50%Q (RngTol dscfg)).
Proof.
  intros Hmode H. unfold resolve in H. rewrite Hmode in H.
  apply bind_Ok in H as (pr & _ & H).
  apply bind_Ok in H as (paz & _ & H).
  apply bind_Ok in H as (pel & _ & H).
  destruct (antenna_to_cartesian _ _ _) as [[x y] z].
  destruct (cartesian_to_geographic _ _ _ _) as [plon plat].
  by injection H as <-.
Qed.

(** In geographic mode the tolerances are never bound. *)
Lemma geographic_tolerances dscfg s l :
  latlon dscfg = Some true →
  resolve dscfg s = Ok l →
  azi_tol l = None ∧ ele_tol l = None ∧ rng_tol l = None.
Proof.
  intros Hmode H. unfold resolve in H. rewrite Hmode in H. simpl in H.
  apply bind_Ok in H as (plon & _ & H).
  apply bind_Ok in H as (plat & _ & H).
  destruct (geographic_to_cartesian _ _ _ _) as [x y].
  apply bind_Ok in H as (palt & _ & H).
  destruct (cartesian_to_antenna _ _ _) as [[pr paz] pel].
  by injection H as <-.
Qed.

(** In geographic mode no processing call on a scan returns. *)
Lemma geographic_mode_raises dscfg st radarnr s :
  latlon dscfg = Some true →
  ∃ e, process_scan dscfg st radarnr s = Raise e.
Proof.
  intros Hmode. unfold process_scan.
  destruct (resolve dscfg s) as [l|e] eqn:Hres; [|by exists e].
  destruct (geographic_tolerances _ _ _ Hmode Hres) as (Ha & _).
  rewrite Ok_bind. unfold locate.
  destruct (d_az s l) as [da|e]; [|by exists e].
  rewrite Ok_bind, Ha. by exists NameError.
Qed.

(** In geographic mode a processing call on a scan that has rays ends
    on the read of the unbound tolerance. *)
Lemma geographic_mode_NameError dscfg st radarnr s l :
  latlon dscfg = Some true →
  resolve dscfg s = Ok l →
  psr.azimuth s ≠ [] →
  process_scan dscfg st radarnr s = Raise NameError.
Proof.
  intros Hmode Hres Hrays. unfold process_scan. rewrite Hres, Ok_bind.
  destruct (geographic_tolerances _ _ _ Hmode Hres) as (Ha & _).
  unfold locate, d_az, np_abs, np_sub.
  destruct (psr.azimuth s) as [|a t]; [done|]. simpl. by rewrite Ha.
Qed.

(** C5. In geographic mode the tolerance check does not evaluate: the
    call on the sample scan, for the sample point given by longitude
    and latitude with all three tolerances configured, raises
    [NameError] at the read of [azi_tol]. *)
Theorem geographic_call_raises_NameError :
  process_spectra_point 1 Sample.geographic_dscfg idle
    (Some [Some Sample.scan2]) = Raise NameError.
Proof.
  unfold process_spectra_point. simpl.
  destruct (resolve Sample.geographic_dscfg Sample.scan2) as [l|e] eqn:Hres.
  - by eapply geographic_mode_NameError.
  - exfalso. unfold resolve in Hres. simpl in Hres.
    destruct (geographic_to_cartesian _ _ _ _) as [x y]. simpl in Hres.
    destruct (cartesian_to_antenna _ _ _) as [[pr paz] pel]. done.
Qed.

End Calls.

(** ** The claims on the sample run *)

Module SampleRun.
Import Sample.

Abbreviation run_to :=
  (run_to pi fn fn fn pair_of triple_of triple_of pair_of).
Abbreviation reachable :=
  (reachable pi fn fn fn pair_of triple_of triple_of pair_of).
Abbreviation resolve :=
  (resolve pi fn fn fn pair_of triple_of triple_of pair_of).
Abbreviation process_scan :=
  (process_scan pi fn fn fn pair_of triple_of triple_of pair_of).
Abbreviation process_spectra_point :=
  (process_spectra_point pi fn fn fn pair_of triple_of triple_of pair_of).

Lemma run_st1 : run_to antenna_dscfg [2] st1.
Proof.
  exact (run_call pi fn fn fn pair_of triple_of triple_of pair_of
           antenna_dscfg [] idle (call scan2) out1 st1
           (run_idle _ _ _ _ _ _ _ _ _) eq_refl eq_refl).
Qed.

Lemma run_st2 : run_to antenna_dscfg [2; 4] st2.
Proof.
  exact (run_call pi fn fn fn pair_of triple_of triple_of pair_of
           antenna_dscfg [2] st1 (call scan4) out2 st2
           run_st1 eq_refl eq_refl).
Qed.

Lemma run_st1_both : run_to two_fields_dscfg [2] st1_both.
Proof.
  exact (run_call pi fn fn fn pair_of triple_of triple_of pair_of
           two_fields_dscfg [] idle (call scan_both) out1_both st1_both
           (run_idle _ _ _ _ _ _ _ _ _) eq_refl eq_refl).
Qed.

Lemma resolve_point : resolve antenna_dscfg scan2 = Ok point.
Proof. reflexivity. Qed.

(** The scenario of three scans with tolerances 1, 1 and 50 m: the scans
    at azimuths 9.6 and 10.3 give a row each, the scan at 12.0 is skipped
    after a warning, and the record handed back at the end has two rows. *)
Example three_scans_two_rows :
  ∃ o1 o2 d st out,
    run antenna_dscfg idle (call <$> three_scans)
    = Ok ([o1; o2; nothing [NoBinAzimuth d]], st)
    ∧ (poi.nrays ∘ radar_out <$> new_dataset o1) = Some 1
    ∧ (poi.nrays ∘ radar_out <$> new_dataset o2) = Some 2
    ∧ process_spectra_point 2 antenna_dscfg st None = Ok (out, st)
    ∧ (poi.nrays ∘ radar_out <$> new_dataset out) = Some 2
    ∧ (final <$> new_dataset out) = Some true.
Proof. vm_compute. do 5 eexists. split_and!; reflexivity. Qed.

(** The scenario of a first scan of 2 pulses and a second of 4: the
    record is then 4 wide, and the first row is masked on columns 2, 3. *)
Example widening_masks_first_row :
  poi.npulses_max ∘ psr_poi <$> global_data st2 = Some 4
  ∧ (poi.fields ∘ psr_poi <$> global_data st2) ≫= (.!! "sPhh")
    = Some [[Some 3%Q; Some 3%Q; None; None];
            [Some 5%Q; Some 5%Q; Some 5%Q; Some 5%Q]].
Proof. split; reflexivity. Qed.

(** The ray is chosen by the sum of the two differences: of two rays
    within tolerance, the one nearer in azimuth loses to the one nearer
    in the sum. *)
Example sum_not_each_difference :
  locate scan_two_rays point = Ok (inr (1, 0))
  ∧ np_argmin (np_abs (np_sub (psr.azimuth scan_two_rays) (az point)))
    = Ok 0.
Proof. split; reflexivity. Qed.

Lemma padding_correctness_witness :
  ∃ ds new appended,
    new_dataset out3 = Some ds
    ∧ poi.fields (radar_out ds) !! "sPhh" = Some new
    ∧ last new = Some appended
    ∧ length appended = 4
    ∧ ∀ c, 1 ≤ c < 4 → masked_at appended c.
Proof.
  epose proof (padding_correctness pi fn fn fn pair_of triple_of triple_of
                 pair_of antenna_dscfg st2 _ 0 scan1 out3 st3 _ "sPhh" _
                 (ex_intro _ _ run_st2) eq_refl eq_refl eq_refl eq_refl)
    as (l & i & j & data & w & new & _ & _ & _ & _ & Hnew & Hnarrow & _).
  destruct Hnarrow as (_ & appended & -> & Hlen & _ & Hmasked).
  { vm_compute. lia. }
  eexists _, _, appended. split_and!.
  - reflexivity.
  - exact Hnew.
  - apply last_snoc.
  - exact Hlen.
  - exact Hmasked.
Defined.

Lemma monotonic_width_witness :
  ∃ g g',
    global_data st1 = Some g ∧ global_data st2 = Some g'
    ∧ poi.npulses_max (psr_poi g) = 2
    ∧ poi.npulses_max (psr_poi g') = 4.
Proof.
  epose proof (monotonic_width pi fn fn fn pair_of triple_of triple_of
                 pair_of antenna_dscfg [2] st1 _ (call scan4) out2 st2
                 run_st1 eq_refl eq_refl eq_refl)
    as (Hw & g' & Hg' & _ & Hw' & _).
  eexists _, g'. split_and!.
  - reflexivity.
  - exact Hg'.
  - exact Hw.
  - exact Hw'.
Defined.




Lemma derived_altitude_witness :
  ∃ l derived,
    resolve geographic_dscfg scan2 = Ok l
    ∧ (r l, az l, el l) = triple_of 8 46 (derived - 1000)%Q.
Proof.
  pose proof (derived_altitude pi fn fn fn pair_of triple_of triple_of
                pair_of geographic_dscfg scan2 8 46 8 46
                eq_refl eq_refl eq_refl eq_refl)
    as (Hderived & _).
  destruct (Hderived 5%Q eq_refl eq_refl) as (_ & l & Hl & Htriple).
  eexists l, _. split; [exact Hl|exact Htriple].
Defined.

Lemma finalize_idempotent_witness :
  ∃ out,
    process_spectra_point 2 antenna_dscfg st2 None = Ok (out, st2)
    ∧ (final <$> new_dataset out) = Some true
    ∧ (poi.nrays ∘ radar_out <$> new_dataset out) = Some 2.
Proof.
  epose proof (finalize_idempotent pi fn fn fn pair_of triple_of triple_of
                 pair_of antenna_dscfg st2 _ (ex_intro _ _ run_st2) eq_refl)
    as (_ & (radarnr & Hfinal) & _).
  eexists. split_and!.
  - apply Hfinal.
  - reflexivity.
  - reflexivity.
Defined.

Lemma missing_field_masked_witness :
  ∃ out st' ds a,
    process_scan two_fields_dscfg st1_both 0 scan4 = Ok (out, st')
    ∧ new_dataset out = Some ds
    ∧ psr.fields scan4 !! "sPvv" = None
    ∧ poi.fields (radar_out ds) !! "sPvv" = Some a
    ∧ last a = Some (masked_all_row 4).
Proof.
  epose proof (missing_field_masked pi fn fn fn pair_of triple_of triple_of
                 pair_of two_fields_dscfg st1_both _ 0 scan4 point 1 1 7
                 (ex_intro _ _ run_st1_both) eq_refl eq_refl eq_refl eq_refl
                 eq_refl)
    as (out & st' & ds & Hcall & Hds & _ & Hmissing).
  destruct (Hmissing "sPvv") as (_ & a & Ha & _ & Hlast).
  { vm_compute. right. left. }
  { reflexivity. }
  exists out, st', ds, a. split_and!; try done.
  rewrite Hlast. f_equal. f_equal.
  unfold process_scan in Hcall. vm_compute in Hcall.
  injection Hcall as <- <-. vm_compute in Hds. injection Hds as <-.
  reflexivity.
Defined.

Lemma single_sweep_single_gate_kept_witness :
  ∃ ds,
    new_dataset out2 = Some ds
    ∧ single_sweep_single_gate (radar_out ds) 5000.
Proof.
  epose proof (single_sweep_single_gate_kept pi fn fn fn pair_of triple_of
                 triple_of pair_of antenna_dscfg st1 0 scan4 out2 st2 _
                 (ex_intro _ _ run_st1) (λ _, ltac:(vm_compute; lia))
                 eq_refl eq_refl eq_refl)
    as (Hkept & _).
  eexists. split; [reflexivity|exact Hkept].
Defined.

End SampleRun.

(** * More properties of [process_spectra_point] *)

Lemma append_attrs names s l i j t p p' ws :
  append names s l i j t p = Ok (p', ws) →
  poi.time p' = poi.time p ++ [(t - poi.time_units p)%Q]
  ∧ poi.azimuth p' = poi.azimuth p ++ [az l]
  ∧ poi.elevation p' = poi.elevation p ++ [el l]
  ∧ poi.time_units p' = poi.time_units p
  ∧ poi.fixed_angle p' = poi.fixed_angle p
  ∧ poi.range p' = poi.range p
  ∧ poi.nrays p' = S (poi.nrays p).
Proof.
  intros H. unfold append in H.
  apply bind_Ok in H as ([flds ws0] & _ & H).
  apply bind_Ok in H as (vel & _ & H).
  apply bind_Ok in H as (freq & _ & H).
  by injection H as <- <-.
Qed.

Lemma take_pad w (cells : list (option Q)) :
  take (length cells) (pad w cells) = cells.
Proof. unfold pad. by rewrite take_app_length. Qed.

(** The rows a buffer held are still there, on their old columns, after
    it has grown. *)
Lemma grow_keeps w' w (cur : list (list (option Q))) data :
  Forall (λ cells, length cells = w') cur →
  take w' <$> take (length cur) (grow w cur data) = cur.
Proof.
  intros Hall. unfold grow.
  rewrite <- (length_fmap (pad w) cur) at 1. rewrite take_app_length.
  rewrite <- list_fmap_compose.
  rewrite <- (list_fmap_id cur) at 2. apply Forall_fmap_ext_1.
  eapply Forall_impl; [exact Hall|]. intros cells Hlen. simpl in *.
  rewrite <- Hlen. apply take_pad.
Qed.

Lemma put_Doppler_grow p s n i cur src new a :
  poi.nrays p = S n →
  0 < poi.npulses_max p →
  (n = 0 → poi.npulses_max p = psr.npulses_max s) →
  rect n (poi.npulses_max p) a →
  put_Doppler p s i cur src = Ok new → cur = Some a →
  ∃ d data,
    src = Some d ∧ d !! i = Some data
    ∧ length data = psr.npulses_max s
    ∧ new = Some (grow (poi.npulses_max p `max` psr.npulses_max s) a data).
Proof.
  intros Hrays Hwidth Hfirst Hr H ->. unfold put_Doppler in H.
  apply bind_Ok in H as (d & Hd & H).
  apply bind_Ok in H as (raw & Hraw & H).
  destruct src as [d'|]; [|done]. injection Hd as ->.
  unfold index in Hraw. destruct (d !! i) eqn:Hi; [|done].
  injection Hraw as ->. exists d, raw. split; [done|]. split; [done|].
  rewrite (np_size_rect _ _ _ Hr) in H.
  destruct (decide (n * poi.npulses_max p = 0)) as [Hz|Hnz].
  - assert (n = 0) as Hn0 by nia. specialize (Hfirst Hn0).
    apply bind_Ok in H as (x & Hx & H).
    apply reshape_row_Ok in Hx as [-> Hlen].
    injection H as <-. split; [congruence|].
    destruct Hr as [Hl _]. rewrite Hn0 in Hl.
    apply nil_length_inv in Hl as ->.
    unfold grow. simpl. rewrite pad_id; [done|lia].
  - apply bind_Ok in H as (x & Hx & H).
    apply reshape_row_Ok in Hx as [-> Hlen].
    apply bind_Ok in H as (y & Hy & H). injection H as <-.
    split; [done|]. rewrite Hrays in Hy.
    rewrite put_nonempty_grow in Hy; [|done|lia|done].
    by injection Hy as <-.
Qed.

Section MoreCalls.
Context (np_pi : Q) (np_sqrt np_cos np_sin : Q → Q).
Context (geographic_to_cartesian : Q → Q → Q → Q → Q * Q).
Context (cartesian_to_antenna : Q → Q → Q → Q * Q * Q).
Context (antenna_to_cartesian : Q → Q → Q → Q * Q * Q).
Context (cartesian_to_geographic : Q → Q → Q → Q → Q * Q).

Local Abbreviation resolve :=
  (resolve np_pi np_sqrt np_cos np_sin geographic_to_cartesian
     cartesian_to_antenna antenna_to_cartesian cartesian_to_geographic).
Local Abbreviation process_scan :=
  (process_scan np_pi np_sqrt np_cos np_sin geographic_to_cartesian
     cartesian_to_antenna antenna_to_cartesian cartesian_to_geographic).
Local Abbreviation process_spectra_point :=
  (process_spectra_point np_pi np_sqrt np_cos np_sin
     geographic_to_cartesian cartesian_to_antenna antenna_to_cartesian
     cartesian_to_geographic).
Local Abbreviation run_to :=
  (run_to np_pi np_sqrt np_cos np_sin geographic_to_cartesian
     cartesian_to_antenna antenna_to_cartesian cartesian_to_geographic).
Local Abbreviation reachable :=
  (reachable np_pi np_sqrt np_cos np_sin geographic_to_cartesian
     cartesian_to_antenna antenna_to_cartesian cartesian_to_geographic).

(** X1. A call changes [dscfg] only by appending a row: whenever it
    hands back nothing, or the final dataset, [dscfg] is as before. *)
Theorem unchanged_without_row ps dscfg st radars out st' :
  process_spectra_point ps dscfg st radars = Ok (out, st') →
  (∀ ds, new_dataset out = Some ds → final ds = true) →
  st' = st.
Proof.
  intros H Hfinal.
  apply (process_spectra_point_cases np_pi np_sqrt np_cos np_sin
           geographic_to_cartesian cartesian_to_antenna
           antenna_to_cartesian cartesian_to_geographic) in H
    as [[-> _]|[(-> & _)
               |(_ & _ & nr & l & s & ds & _ & _ & _ & H & Hds)]];
    try done.
  pose proof (Hfinal ds Hds) as Hf.
  destruct (process_scan_inv _ _ _ _ _ _ _ _ _ _ _ _ _ _ _ H Hds)
    as (? & ? & ? & ? & ? & ? & ? & ? & _ & _ & _ & _ & _ & _ & -> & _).
  done.
Qed.

(** The record before and after a processing call that appends. *)
Lemma process_scan_step dscfg st g radarnr s out st' ds :
  reachable dscfg st →
  global_data st = Some g →
  process_scan dscfg st radarnr s = Ok (out, st') →
  new_dataset out = Some ds →
  ∃ l i j t ws,
    resolve dscfg s = Ok l
    ∧ locate s l = Ok (inr (i, j))
    ∧ psr.time s !! i = Some t
    ∧ append (field_names dscfg) s l i j (psr.time_units s + t)%Q
        (psr_poi g) = Ok (radar_out ds, ws)
    ∧ ds = emit (set_psr_poi g (radar_out ds)) false
    ∧ st' = {| initialized := initialized st;
               global_data := Some (set_psr_poi g (radar_out ds)) |}
    ∧ poi_ok (field_names dscfg) (psr_poi g)
    ∧ 1 ≤ poi.nrays (psr_poi g).
Proof.
  intros Hreach Hg H Hds.
  pose proof (reachable_ok _ _ _ _ _ _ _ _ _ _ Hreach) as Hok.
  destruct (process_scan_inv _ _ _ _ _ _ _ _ _ _ _ _ _ _ _ H Hds)
    as (l & i & j & t & st1 & g1 & p & ws
        & Hres & Hloc & Ht & Hinit & Hg1 & Happ & -> & Hind & ->).
  unfold state_ok in Hok. rewrite Hg in Hok.
  destruct Hok as (Hi & _ & Hp & Hn & _).
  unfold ensure_initialized in Hinit.
  rewrite decide_False in Hinit by done. injection Hinit as <-.
  rewrite Hg in Hg1. injection Hg1 as <-.
  exists l, i, j, t, ws. done.
Qed.

(** X2. Fixed values. Once a run has a record, no later call changes
    the two coordinate tuples, the range axis, the time origin or the
    fixed angle. *)
Theorem fixed_values_kept ps dscfg st g radars out st' :
  reachable dscfg st →
  global_data st = Some g →
  process_spectra_point ps dscfg st radars = Ok (out, st') →
  ∃ g', global_data st' = Some g'
    ∧ point_coordinates_WGS84_lon_lat_alt g'
      = point_coordinates_WGS84_lon_lat_alt g
    ∧ antenna_coordinates_az_el_r g' = antenna_coordinates_az_el_r g
    ∧ poi.range (psr_poi g') = poi.range (psr_poi g)
    ∧ poi.time_units (psr_poi g') = poi.time_units (psr_poi g)
    ∧ poi.fixed_angle (psr_poi g') = poi.fixed_angle (psr_poi g).
Proof.
  intros Hreach Hg H.
  apply (process_spectra_point_cases np_pi np_sqrt np_cos np_sin
           geographic_to_cartesian cartesian_to_antenna
           antenna_to_cartesian cartesian_to_geographic) in H
    as [[-> _]|[(-> & _)
               |(_ & _ & nr & l & s & ds & _ & _ & _ & H & Hds)]].
  - by exists g.
  - by exists g.
  - destruct (process_scan_step _ _ _ _ _ _ _ _ Hreach Hg H Hds)
      as (loc & i & j & t & ws & _ & _ & _ & Happ & _ & -> & _).
    apply append_attrs in Happ as (_ & _ & _ & Hu & Hf & Hr & _).
    eexists. split; [reflexivity|]. done.
Qed.

(** X3. Nothing accumulated is lost. A call that appends a row puts
    one entry at the end of the time, azimuth and elevation axes, the
    time entry being the time of the selected ray counted from the time
    origin of the record, and every tracked field keeps its rows, in
    order, on the columns they had. *)
Theorem history_preserved dscfg st g radarnr s out st' ds :
  reachable dscfg st →
  global_data st = Some g →
  process_scan dscfg st radarnr s = Ok (out, st') →
  new_dataset out = Some ds →
  ∃ l i j t,
    resolve dscfg s = Ok l
    ∧ locate s l = Ok (inr (i, j))
    ∧ psr.time s !! i = Some t
    ∧ poi.time (radar_out ds)
      = poi.time (psr_poi g)
        ++ [(psr.time_units s + t - poi.time_units (psr_poi g))%Q]
    ∧ poi.azimuth (radar_out ds) = poi.azimuth (psr_poi g) ++ [az l]
    ∧ poi.elevation (radar_out ds) = poi.elevation (psr_poi g) ++ [el l]
    ∧ ∀ name cur, poi.fields (psr_poi g) !! name = Some cur →
        ∃ new, poi.fields (radar_out ds) !! name = Some new
          ∧ length new = S (length cur)
          ∧ take (poi.npulses_max (psr_poi g)) <$> take (length cur) new
            = cur.
Proof.
  intros Hreach Hg H Hds.
  destruct (process_scan_step _ _ _ _ _ _ _ _ Hreach Hg H Hds)
    as (l & i & j & t & ws & Hres & Hloc & Ht & Happ & _ & _ & Hp & Hn).
  pose proof (append_attrs _ _ _ _ _ _ _ _ _ Happ)
    as (Htime & Haz & Hel & _).
  destruct (append_inv _ _ _ _ _ _ _ _ _ Hp ltac:(lia) Happ)
    as (_ & _ & _ & _ & Hf).
  exists l, i, j, t. split_and!; try done.
  intros name cur Hcur.
  destruct (Hf name cur Hcur) as (data & w & _ & Hnew).
  destruct (ok_fields _ _ Hp name cur Hcur) as [_ Hall].
  eexists. split; [exact Hnew|]. split.
  - unfold grow. rewrite length_app, length_fmap. simpl. lia.
  - by apply grow_keeps.
Qed.

(** X4. The Doppler axes follow the fields. A call that appends a row
    to a record that tracks the Doppler velocity (frequency) axis takes
    the row of the selected ray of the scan's axis, which has the
    declared width, and stores it as it stores a field: all rows
    widened by masked cells to the larger of the two widths. *)
Theorem doppler_axis_padding dscfg st g radarnr s out st' ds :
  reachable dscfg st →
  global_data st = Some g →
  process_scan dscfg st radarnr s = Ok (out, st') →
  new_dataset out = Some ds →
  ∃ l i j,
    resolve dscfg s = Ok l
    ∧ locate s l = Ok (inr (i, j))
    ∧ (∀ cur, poi.Doppler_velocity (psr_poi g) = Some cur →
         ∃ src data,
           psr.Doppler_velocity s = Some src ∧ src !! i = Some data
           ∧ length data = psr.npulses_max s
           ∧ poi.Doppler_velocity (radar_out ds)
             = Some (grow (poi.npulses_max (radar_out ds)) cur data)
           ∧ rect (poi.nrays (radar_out ds))
               (poi.npulses_max (radar_out ds))
               (grow (poi.npulses_max (radar_out ds)) cur data))
    ∧ (∀ cur, poi.Doppler_frequency (psr_poi g) = Some cur →
         ∃ src data,
           psr.Doppler_frequency s = Some src ∧ src !! i = Some data
           ∧ length data = psr.npulses_max s
           ∧ poi.Doppler_frequency (radar_out ds)
             = Some (grow (poi.npulses_max (radar_out ds)) cur data)
           ∧ rect (poi.nrays (radar_out ds))
               (poi.npulses_max (radar_out ds))
               (grow (poi.npulses_max (radar_out ds)) cur data))
    ∧ (poi.Doppler_velocity (psr_poi g) = None →
         poi.Doppler_velocity (radar_out ds) = None)
    ∧ (poi.Doppler_frequency (psr_poi g) = None →
         poi.Doppler_frequency (radar_out ds) = None).
Proof.
  intros Hreach Hg H Hds.
  destruct (process_scan_step _ _ _ _ _ _ _ _ Hreach Hg H Hds)
    as (l & i & j & t & ws & Hres & Hloc & Ht & Happ & _ & _ & Hp & Hn).
  destruct (append_inv _ _ _ _ _ _ _ _ _ Hp ltac:(lia) Happ)
    as (Hp' & Hn' & Hw & _ & _).
  exists l, i, j. split; [done|]. split; [done|].
  unfold append in Happ.
  apply bind_Ok in Happ as ([flds ws0] & _ & Happ).
  apply bind_Ok in Happ as (vel & Hvel & Happ).
  apply bind_Ok in Happ as (freq & Hfreq & Happ).
  injection Happ as Hrec _.
  pose proof (ok_width _ _ Hp) as Hpos.
  assert (poi.Doppler_velocity (radar_out ds) = vel) as Hdv
    by (by rewrite <- Hrec).
  assert (poi.Doppler_frequency (radar_out ds) = freq) as Hdf
    by (by rewrite <- Hrec).
  simpl in Hw. rewrite Hdv, Hdf, Hw. split_and!.
  - intros cur Hcur.
    pose proof (ok_velocity _ _ Hp cur Hcur) as Hr.
    destruct (put_Doppler_grow
                (count_row (psr_poi g) l (psr.time_units s + t)%Q)
                s (poi.nrays (psr_poi g)) i _ _ _ cur
                eq_refl Hpos ltac:(lia) Hr Hvel Hcur)
      as (src & data & Hsrc & Hdata & Hlen & ->).
    exists src, data. split_and!; try done.
    rewrite Hn'. eapply rect_grow; [exact Hr|lia|lia].
  - intros cur Hcur.
    pose proof (ok_frequency _ _ Hp cur Hcur) as Hr.
    destruct (put_Doppler_grow
                (count_row (psr_poi g) l (psr.time_units s + t)%Q)
                s (poi.nrays (psr_poi g)) i _ _ _ cur
                eq_refl Hpos ltac:(lia) Hr Hfreq Hcur)
      as (src & data & Hsrc & Hdata & Hlen & ->).
    exists src, data. split_and!; try done.
    rewrite Hn'. eapply rect_grow; [exact Hr|lia|lia].
  - intros Hnone. simpl in Hvel. rewrite Hnone in Hvel.
    by injection Hvel as <-.
  - intros Hnone. simpl in Hfreq. rewrite Hnone in Hfreq.
    by injection Hfreq as <-.
Qed.


Lemma resolve_antenna dscfg s l :
  default false (latlon dscfg) = false →
  resolve dscfg s = Ok l →
  rng dscfg = Some (r l) ∧ azi dscfg = Some (az l)
  ∧ ele dscfg = Some (el l).
Proof.
  intros Hmode H. unfold resolve in H. rewrite Hmode in H.
  apply bind_Ok in H as (pr & Hr & H).
  apply bind_Ok in H as (paz & Haz & H).
  apply bind_Ok in H as (pel & Hel & H).
  destruct (antenna_to_cartesian _ _ _) as [[x y] z].
  destruct (cartesian_to_geographic _ _ _ _) as [plon plat].
  injection H as <-. simpl.
  unfold getitem in Hr, Haz, Hel.
  destruct (rng dscfg), (azi dscfg), (ele dscfg); simplify_eq. done.
Qed.


(** A processing call that appends ran in antenna mode. *)
Lemma appended_in_antenna_mode dscfg st radarnr s out st' :
  process_scan dscfg st radarnr s = Ok (out, st') →
  default false (latlon dscfg) = false.
Proof.
  intros H. destruct (latlon dscfg) as [[]|] eqn:Hmode; try done.
  destruct (geographic_mode_raises np_pi np_sqrt np_cos np_sin
              geographic_to_cartesian cartesian_to_antenna
              antenna_to_cartesian cartesian_to_geographic
              dscfg st radarnr s Hmode) as [e He].
  congruence.
Qed.

Lemma run_to_nominal dscfg widths st g :
  run_to dscfg widths st →
  global_data st = Some g →
  ∃ a e r0,
    azi dscfg = Some a ∧ ele dscfg = Some e ∧ rng dscfg = Some r0
    ∧ default false (latlon dscfg) = false
    ∧ antenna_coordinates_az_el_r g = (a, e, r0)
    ∧ poi.azimuth (psr_poi g) = replicate (poi.nrays (psr_poi g)) a
    ∧ poi.elevation (psr_poi g) = replicate (poi.nrays (psr_poi g)) e
    ∧ poi.range (psr_poi g) = [r0]
    ∧ poi.fixed_angle (psr_poi g) = [a].
Proof.
  intros Hrun. revert g.
  induction Hrun as [|widths st c out st' Hrun IH Hpos Hcall]; [done|].
  intros g' Hg'.
  pose proof (run_to_ok _ _ _ _ _ _ _ _ _ _ _ Hrun) as Hok.
  apply (process_spectra_point_cases np_pi np_sqrt np_cos np_sin
           geographic_to_cartesian cartesian_to_antenna
           antenna_to_cartesian cartesian_to_geographic) in Hcall
    as [[-> _]|[(-> & _)
               |(_ & _ & nr & rl & s & ds & _ & _ & _ & H & Hds)]].
  - by apply IH.
  - by apply IH.
  - pose proof (appended_in_antenna_mode _ _ _ _ _ _ H) as Hmode.
    destruct (process_scan_inv _ _ _ _ _ _ _ _ _ _ _ _ _ _ _ H Hds)
      as (l & i & j & t & st1 & g1 & p & ws
          & Hres & Hloc & Ht & Hinit & Hg1 & Happ & _ & _ & ->).
    simpl in Hg'. injection Hg' as <-.
    destruct (resolve_antenna _ _ _ Hmode Hres) as (Hr & Ha & He).
    apply append_attrs in Happ
      as (_ & Haz & Hel & _ & Hfix & Hrange & Hrays).
    simpl. rewrite Haz, Hel, Hfix, Hrange, Hrays.
    unfold ensure_initialized in Hinit.
    destruct (decide (initialized st = 0)) as [Hz|Hnz].
    + apply bind_Ok in Hinit as (p0 & Hp0 & Hinit).
      injection Hinit as <-. simpl in Hg1. injection Hg1 as <-.
      unfold initialize in Hp0.
      apply bind_Ok in Hp0 as (flds & _ & Hp0). injection Hp0 as <-.
      simpl. exists (az l), (el l), (r l). done.
    + injection Hinit as <-.
      destruct (IH g1 Hg1)
        as (a & e & r0 & Ha' & He' & Hr' & _ & Hc & Hazs & Hels & Hrg & Hfx).
      exists a, e, r0.
      assert (az l = a) as -> by congruence.
      assert (el l = e) as -> by congruence.
      rewrite Hazs, Hels, Hrg, Hfx.
      split_and!; try done.
      * by rewrite replicate_S_end.
      * by rewrite replicate_S_end.
Qed.

(** X5. The angles of the record are the nominal ones. A run that has
    a record is a run in antenna mode, and every entry of the azimuth
    (elevation) axis of the record is the azimuth (elevation)
    configured for the point, not the angle of the ray that was
    selected; the range axis holds the configured range. *)
Theorem nominal_angles dscfg st g :
  reachable dscfg st →
  global_data st = Some g →
  ∃ a e r0,
    azi dscfg = Some a ∧ ele dscfg = Some e ∧ rng dscfg = Some r0
    ∧ default false (latlon dscfg) = false
    ∧ antenna_coordinates_az_el_r g = (a, e, r0)
    ∧ poi.azimuth (psr_poi g) = replicate (poi.nrays (psr_poi g)) a
    ∧ poi.elevation (psr_poi g) = replicate (poi.nrays (psr_poi g)) e
    ∧ poi.range (psr_poi g) = [r0]
    ∧ poi.fixed_angle (psr_poi g) = [a].
Proof. intros [widths Hrun]. by eapply run_to_nominal. Qed.




Lemma fields_fit_data names s i j name :
  fields_fit names s i j = true → name ∈ names →
  ∃ data w, poi_data s name i j = Ok (data, w).
Proof.
  intros Hfit Hin. unfold fields_fit in Hfit.
  rewrite forallb_forall in Hfit. specialize (Hfit name).
  destruct (psr.fields s !! name) as [data|] eqn:Hl.
  - destruct (poi_data_present s name i j data Hl) as [c Hc].
    { apply Hfit. by apply list_elem_of_In. }
    eauto.
  - rewrite poi_data_missing by done. eauto.
Qed.

(** X7. A Doppler axis cannot disappear. When the record tracks the
    Doppler velocity axis (the first scan had one) and a later scan
    within tolerance has none, the processing call raises [TypeError],
    after the fields of the row have been taken. *)
Theorem lost_doppler_axis_raises dscfg st g radarnr s l i j t cur :
  reachable dscfg st →
  global_data st = Some g →
  poi.Doppler_velocity (psr_poi g) = Some cur →
  psr.Doppler_velocity s = None →
  resolve dscfg s = Ok l →
  locate s l = Ok (inr (i, j)) →
  psr.time s !! i = Some t →
  fields_fit (field_names dscfg) s i j = true →
  process_scan dscfg st radarnr s = Raise TypeError.
Proof.
  intros Hreach Hg Hcur Hnone Hres Hloc Ht Hfit.
  pose proof (reachable_ok _ _ _ _ _ _ _ _ _ _ Hreach) as Hok.
  unfold state_ok in Hok. rewrite Hg in Hok.
  destruct Hok as (Hinit & _ & Hp & Hrows & _).
  unfold process_scan. rewrite Hres, Ok_bind, Hloc, Ok_bind.
  unfold index. rewrite Ht, Ok_bind.
  unfold ensure_initialized. rewrite decide_False by done.
  rewrite Ok_bind, Hg. unfold getitem. rewrite Ok_bind.
  unfold append.
  destruct (put_fields_total
              (count_row (psr_poi g) l (psr.time_units s + t)%Q) s
              (poi.nrays (psr_poi g)) eq_refl (ok_width _ _ Hp)
              ltac:(lia) i j (field_names dscfg)
              (poi.fields (count_row (psr_poi g) l
                             (psr.time_units s + t)%Q)) [])
    as (flds & ws & Hput).
  - intros name Hn. apply (ok_dom _ _ Hp) in Hn as [a Ha]. exists a.
    split; [done|]. simpl. by eapply (ok_fields _ _ Hp).
  - by destruct Hp.
  - intros name Hn. by eapply fields_fit_data.
  - unfold field_names in Hput. rewrite Hput, Ok_bind.
    unfold put_Doppler. simpl. by rewrite Hcur, Hnone.
Qed.









End MoreCalls.

(** * The 0-Doppler filter *)

Lemma for_each_Forall2 {A B} (f : A → res B) (l : list A) (l' : list B) :
  for_each f l = Ok l' ↔ Forall2 (λ x y, f x = Ok y) l l'.
Proof.
  revert l'. induction l as [|x l IH]; intros l'; simpl.
  - split; [intros [= <-]; constructor|by inversion 1].
  - split.
    + intros H. apply bind_Ok in H as (y & Hy & H).
      apply bind_Ok in H as (ys & Hys & H). injection H as <-.
      constructor; [done|by apply IH].
    + inversion 1 as [|? y ? ys Hy Hys]; subst.
      rewrite Hy, Ok_bind. apply IH in Hys. by rewrite Hys.
Qed.

Lemma where_from_spec (cond : list bool) : ∀ i k,
  k ∈ where_from i cond ↔ ∃ c, k = i + c ∧ cond !! c = Some true.
Proof.
  induction cond as [|b rest IH]; intros i k; simpl.
  - split; [by intros ?%elem_of_nil|by intros (c & _ & ?)].
  - assert (k ∈ where_from (S i) rest
            ↔ ∃ c, k = i + S c ∧ rest !! c = Some true) as Hrest.
    { rewrite IH. split; intros (c & -> & Hc); exists c; split; [lia|done|lia|done]. }
    destruct b.
    + rewrite elem_of_cons, Hrest. split.
      * intros [->|(c & -> & Hc)]; [exists 0|exists (S c)];
          (split; [lia|done]).
      * intros ([|c] & -> & Hc); [left; lia|right; exists c; by split].
    + rewrite Hrest. split.
      * intros (c & -> & Hc). exists (S c). by split.
      * intros ([|c] & -> & Hc); [done|]. exists c. by split.
Qed.

Lemma ma_where_band filter_width (axis_ray : list (option Q)) k :
  k ∈ ma_where (in_band filter_width <$> axis_ray)
  ↔ band_at filter_width axis_ray k = true.
Proof.
  unfold ma_where, band_at. rewrite where_from_spec. split.
  - intros (c & -> & Hc). simpl. rewrite list_lookup_fmap in Hc.
    destruct (axis_ray !! c); simpl in Hc; by simplify_eq.
  - intros Hb. exists k. split; [done|]. rewrite list_lookup_fmap.
    destruct (axis_ray !! k); simpl; [by rewrite Hb|done].
Qed.

Lemma foldr_length_insert (ind : list nat) (cells : list (option Q)) :
  length (foldr (λ k acc, <[k := None]> acc) cells ind) = length cells.
Proof. induction ind as [|k ind IH]; simpl; [done|]. by rewrite length_insert. Qed.

Lemma mask_all_lookup (ind : list nat) (cells : list (option Q)) c :
  foldr (λ k acc, <[k := None]> acc) cells ind !! c
  = if decide (c ∈ ind) then (λ _, None) <$> cells !! c else cells !! c.
Proof.
  induction ind as [|k ind IH].
  - destruct (decide (c ∈ [])) as [Hin|]; [by apply elem_of_nil in Hin|done].
  - cbn [foldr]. destruct (decide (k = c)) as [->|Hne].
    + destruct (decide (c ∈ c :: ind)) as [_|Hn]; [|exfalso; apply Hn; left].
      destruct (cells !! c) as [v|] eqn:Hc.
      * rewrite list_lookup_insert_eq; [done|].
        rewrite foldr_length_insert. by eapply lookup_lt_Some.
      * simpl. apply lookup_ge_None. rewrite length_insert.
        rewrite foldr_length_insert. by apply lookup_ge_None.
    + rewrite list_lookup_insert_ne by done. rewrite IH.
      destruct (decide (c ∈ ind)) as [Hin|Hnin];
        destruct (decide (c ∈ k :: ind)) as [Hin'|Hnin']; try done.
      * exfalso. apply Hnin'. by right.
      * apply elem_of_cons in Hin' as [?|?]; [by subst|done].
Qed.

Lemma mask_pulses_band filter_width (axis_ray cells cells' : list (option Q)) :
  mask_pulses (ma_where (in_band filter_width <$> axis_ray)) cells = Ok cells'
  ↔ row_ready filter_width axis_ray cells
    ∧ cells' = masked_in_band filter_width axis_ray cells.
Proof.
  unfold mask_pulses, row_ready.
  set (ind := ma_where (in_band filter_width <$> axis_ray)).
  assert (foldr (λ k acc, <[k := None]> acc) cells ind
          = masked_in_band filter_width axis_ray cells) as Heq.
  { apply list_eq. intros c. rewrite mask_all_lookup.
    unfold masked_in_band. rewrite list_lookup_imap.
    destruct (decide (c ∈ ind)) as [Hin|Hnin].
    - apply ma_where_band in Hin. rewrite Hin.
      by destruct (cells !! c).
    - destruct (band_at filter_width axis_ray c) eqn:Hb.
      + exfalso. apply Hnin. by apply ma_where_band.
      + by destruct (cells !! c). }
  destruct (forallb (λ k, k <? length cells) ind) eqn:Hall.
  - rewrite forallb_forall in Hall. split.
    + intros [= <-]. split; [|done]. intros c Hc.
      apply Nat.ltb_lt, Hall, list_elem_of_In. by apply ma_where_band.
    + intros [_ ->]. by rewrite Heq.
  - split; [done|]. intros [Hready _]. exfalso.
    apply not_true_iff_false in Hall. apply Hall.
    apply forallb_forall. intros k Hk. apply Nat.ltb_lt, Hready.
    apply ma_where_band. by apply list_elem_of_In.
Qed.

Lemma mask_plane_band filter_width (axis_ray : list (option Q))
    (plane plane' : list (list (option Q))) :
  for_each (mask_pulses (ma_where (in_band filter_width <$> axis_ray))) plane
  = Ok plane'
  ↔ Forall (row_ready filter_width axis_ray) plane
    ∧ plane' = masked_in_band filter_width axis_ray <$> plane.
Proof.
  rewrite for_each_Forall2. split.
  - intros H. induction H as [|x y l l' Hxy _ [IH1 IH2]].
    + split; [constructor|done].
    + apply mask_pulses_band in Hxy as [Hr ->]. split.
      * by constructor.
      * rewrite IH2. done.
  - intros [Hall ->]. induction Hall as [|x l Hx _ IH]; simpl.
    + constructor.
    + constructor; [|done]. by apply mask_pulses_band.
Qed.

(** The loop over the rays [lo, lo + k) against its closed form. *)
Lemma filter_rays_range filter_width (axis : list (list (option Q))) k :
  ∀ lo (data data' : list (list (list (option Q)))),
  filter_rays axis filter_width data (seq lo k) = Ok data'
  ↔ (∀ ray, lo ≤ ray < lo + k →
       ∃ axis_ray plane,
         axis !! ray = Some axis_ray ∧ data !! ray = Some plane
         ∧ Forall (row_ready filter_width axis_ray) plane)
    ∧ data'
      = imap (λ ray plane,
                match axis !! ray with
                | Some axis_ray =>
                    if Nat.leb lo ray && Nat.ltb ray (lo + k)
                    then masked_in_band filter_width axis_ray <$> plane
                    else plane
                | None => plane
                end) data.
Proof.
  induction k as [|k IH]; intros lo data data'.
  - simpl. split.
    + intros [= <-]. split; [intros ray ?; lia|].
      apply list_eq. intros ray. rewrite list_lookup_imap.
      destruct (data !! ray); [|done]. simpl.
      destruct (axis !! ray); [|done].
      destruct (Nat.leb_spec lo ray), (Nat.ltb_spec ray (lo + 0));
        simpl; try done; lia.
    + intros [_ ->]. f_equal.
      apply list_eq. intros ray. rewrite list_lookup_imap.
      destruct (data !! ray); [|done]. simpl.
      destruct (axis !! ray); [|done].
      destruct (Nat.leb_spec lo ray), (Nat.ltb_spec ray (lo + 0));
        simpl; try done; lia.
  - cbn [seq filter_rays].
    assert (∀ (plane : list (list (option Q))) axis_ray,
      data !! lo = Some plane → axis !! lo = Some axis_ray →
      imap (λ ray plane0,
              match axis !! ray with
              | Some axis_ray0 =>
                  if Nat.leb (S lo) ray && Nat.ltb ray (S lo + k)
                  then masked_in_band filter_width axis_ray0 <$> plane0
                  else plane0
              | None => plane0
              end)
           (<[lo := masked_in_band filter_width axis_ray <$> plane]> data)
      = imap (λ ray plane0,
                match axis !! ray with
                | Some axis_ray0 =>
                    if Nat.leb lo ray && Nat.ltb ray (lo + S k)
                    then masked_in_band filter_width axis_ray0 <$> plane0
                    else plane0
                | None => plane0
                end) data) as Hstep.
    { intros plane axis_ray Hplane Hax.
      apply list_eq. intros ray. rewrite !list_lookup_imap.
      destruct (decide (ray = lo)) as [->|Hne].
      - rewrite list_lookup_insert_eq by (by eapply lookup_lt_Some).
        rewrite Hplane. cbn [fmap option_fmap option_map]. rewrite Hax.
        destruct (Nat.leb_spec (S lo) lo), (Nat.leb_spec lo lo),
          (Nat.ltb_spec lo (lo + S k)); simpl; try done; lia.
      - rewrite list_lookup_insert_ne by done.
        destruct (data !! ray); [|done]. cbn [fmap option_fmap option_map].
        destruct (axis !! ray); [|done].
        destruct (Nat.leb_spec (S lo) ray), (Nat.leb_spec lo ray),
          (Nat.ltb_spec ray (S lo + k)), (Nat.ltb_spec ray (lo + S k));
          simpl; try done; lia. }
    split.
    + intros H. apply bind_Ok in H as (axis_ray & Hax & H).
      unfold index in Hax. destruct (axis !! lo) eqn:Haxis; [|done].
      injection Hax as ->.
      apply bind_Ok in H as (data1 & Hmask & H).
      unfold mask_ray in Hmask.
      apply bind_Ok in Hmask as (plane & Hplane & Hmask).
      unfold index in Hplane. destruct (data !! lo) eqn:Hdata; [|done].
      injection Hplane as ->.
      apply bind_Ok in Hmask as (plane' & Hplane' & Hmask).
      injection Hmask as <-.
      apply mask_plane_band in Hplane' as [Hready ->].
      apply IH in H as [Hrest ->]. split.
      * intros ray Hray. destruct (decide (ray = lo)) as [->|Hne].
        -- by exists axis_ray, plane.
        -- destruct (Hrest ray) as (ar & pl & H1 & H2 & H3); [lia|].
           rewrite list_lookup_insert_ne in H2 by done.
           by exists ar, pl.
      * by rewrite (Hstep plane axis_ray eq_refl eq_refl).
    + intros [Hready ->].
      destruct (Hready lo) as (axis_ray & plane & Hax & Hdata & Hpl); [lia|].
      unfold index. rewrite Hax, Ok_bind.
      unfold mask_ray, index. rewrite Hdata, Ok_bind.
      rewrite (proj2 (mask_plane_band _ _ _ _) (conj Hpl eq_refl)), Ok_bind.
      rewrite Ok_bind. apply IH. split.
      * intros ray Hray. destruct (Hready ray) as (ar & pl & H1 & H2 & H3);
          [lia|].
        exists ar, pl. rewrite list_lookup_insert_ne by lia. done.
      * by rewrite (Hstep plane axis_ray Hdata Hax).
Qed.

(** The loop of lines 462-466 succeeds exactly on a field and an axis
    that are ready for it, and then computes the cell-by-cell filter. *)
Lemma filter_rays_masked filter_width (axis : list (list (option Q))) nrays
    (data data' : list (list (list (option Q)))) :
  filter_rays axis filter_width data (seq 0 nrays) = Ok data'
  ↔ field_ready filter_width axis nrays data
    ∧ data' = zero_Doppler_masked filter_width axis nrays data.
Proof.
  rewrite filter_rays_range. unfold field_ready, zero_Doppler_masked.
  split; intros [Hready ->]; (split; [intros ray Hray; apply Hready; lia|]).
  all: done.
Qed.

Lemma missing_fields_cons s name names :
  missing_fields s (name :: names)
  = match psr.fields (spectra.obj s) !! name with
    | None => MissingField name :: missing_fields s names
    | Some _ => missing_fields s names
    end.
Proof. unfold missing_fields. simpl. by destruct (_ !! name). Qed.

Lemma present_fields_cons s name names :
  present_fields s (name :: names)
  = match psr.fields (spectra.obj s) !! name with
    | None => present_fields s names
    | Some _ => name :: present_fields s names
    end.
Proof. unfold present_fields. simpl. by destruct (_ !! name). Qed.

Lemma elem_of_present_fields s names name :
  name ∈ present_fields s names
  ↔ name ∈ names ∧ is_Some (psr.fields (spectra.obj s) !! name).
Proof.
  unfold present_fields. rewrite list_elem_of_omap. split.
  - intros (n & Hn & Hm). destruct (_ !! n) eqn:Hl; [|done].
    injection Hm as ->. split; [done|]. by rewrite Hl.
  - intros [Hn [d Hd]]. exists name. split; [done|]. by rewrite Hd.
Qed.

(** The loop over the requested fields. *)
Lemma filter_fields_inv s axis filter_width names :
  ∀ fields aux ws fields' aux' ws',
  filter_fields s axis filter_width names fields aux ws
  = Ok (fields', aux', ws') →
  aux' = aux ++ present_fields s names
  ∧ ws' = ws ++ missing_fields s names
  ∧ (∀ name d, name ∈ names →
       psr.fields (spectra.obj s) !! name = Some d →
       field_ready filter_width axis (spectra.nrays s) d)
  ∧ (∀ name, name ∈ names → ∀ d,
       psr.fields (spectra.obj s) !! name = Some d →
       fields' !! name
       = Some (zero_Doppler_masked filter_width axis (spectra.nrays s) d))
  ∧ (∀ name, name ∉ present_fields s names →
       fields' !! name = fields !! name).
Proof.
  induction names as [|name rest IH]; intros fields aux ws fields' aux' ws' H.
  - simpl in H. injection H as <- <- <-.
    unfold present_fields, missing_fields. simpl. rewrite !app_nil_r.
    split_and!; try done.
    + by intros ? ? ?%elem_of_nil.
    + by intros ? ?%elem_of_nil.
  - simpl in H. rewrite missing_fields_cons, present_fields_cons.
    destruct (psr.fields (spectra.obj s) !! name) as [d|] eqn:Hd.
    + apply bind_Ok in H as (d' & Hd' & H).
      apply filter_rays_masked in Hd' as [Hready ->].
      apply IH in H as (-> & -> & Hr & Hin & Hout).
      rewrite <- app_assoc. split_and!; try done.
      * intros n dn [->|Hn]%elem_of_cons Hdn; [|by eapply Hr].
        by simplify_eq.
      * intros n Hn dn Hdn.
        destruct (decide (n ∈ rest)) as [Hrest|Hrest]; [by apply Hin|].
        apply elem_of_cons in Hn as [->|?]; [|done].
        rewrite Hout.
        -- simplify_eq. apply lookup_insert_eq.
        -- rewrite elem_of_present_fields. by intros [? _].
      * intros n Hn. apply not_elem_of_cons in Hn as [Hne Hn].
        rewrite Hout by done. by apply lookup_insert_ne.
    + apply IH in H as (-> & -> & Hr & Hin & Hout).
      rewrite <- app_assoc. split_and!; try done.
      * intros n dn [->|Hn]%elem_of_cons Hdn; [congruence|by eapply Hr].
      * intros n [->|Hn]%elem_of_cons dn Hdn; [congruence|by apply Hin].
Qed.

Lemma filter_fields_total s axis filter_width names :
  ∀ fields aux ws,
  (∀ name d, name ∈ names →
     psr.fields (spectra.obj s) !! name = Some d →
     field_ready filter_width axis (spectra.nrays s) d) →
  ∃ result, filter_fields s axis filter_width names fields aux ws
            = Ok result.
Proof.
  induction names as [|name rest IH]; intros fields aux ws Hready.
  - simpl. eauto.
  - simpl. destruct (psr.fields (spectra.obj s) !! name) as [d|] eqn:Hd.
    + rewrite (proj2 (filter_rays_masked _ _ _ _ _)
                 (conj (Hready name d ltac:(left) Hd) eq_refl)).
      rewrite Ok_bind. apply IH. intros n dn Hn. apply Hready. by right.
    + apply IH. intros n dn Hn. apply Hready. by right.
Qed.

Lemma add_fields_inv (fields : gmap string (list (list (list (option Q)))))
    names :
  ∀ acc flds,
  add_fields fields names acc = Ok flds →
  NoDup names
  ∧ (∀ name, name ∈ names →
       acc !! name = None ∧ is_Some (fields !! name)
       ∧ flds !! name = fields !! name)
  ∧ (∀ name, name ∉ names → flds !! name = acc !! name).
Proof.
  induction names as [|name rest IH]; intros acc flds H; simpl in H.
  - injection H as <-. split; [constructor|]. split; [|done].
    by intros ? ?%elem_of_nil.
  - apply bind_Ok in H as (d & Hd & H).
    unfold getitem in Hd. destruct (fields !! name) as [d'|] eqn:Hl; [|done].
    injection Hd as ->.
    destruct (decide (is_Some (acc !! name))) as [|Hnone]; [done|].
    apply IH in H as (Hnd & Hin & Hout).
    assert (name ∉ rest) as Hfresh.
    { intros Hn. destruct (Hin name Hn) as [Hacc _].
      by rewrite lookup_insert_eq in Hacc. }
    split; [by constructor|]. split.
    + intros n [->|Hn]%elem_of_cons.
      * split; [by apply eq_None_not_Some|]. split; [by eexists|].
        rewrite Hout by done. rewrite lookup_insert_eq. done.
      * destruct (Hin n Hn) as (Hacc & Hsome & Hfl). split_and!; try done.
        rewrite lookup_insert_ne in Hacc; [done|]. by intros ->.
    + intros n [Hne Hn]%not_elem_of_cons.
      rewrite Hout by done. by apply lookup_insert_ne.
Qed.

Lemma add_fields_total (fields : gmap string (list (list (list (option Q)))))
    names :
  ∀ acc,
  NoDup names →
  (∀ name, name ∈ names → acc !! name = None ∧ is_Some (fields !! name)) →
  ∃ flds, add_fields fields names acc = Ok flds.
Proof.
  induction names as [|name rest IH]; intros acc Hnd Hall; simpl.
  - eauto.
  - apply NoDup_cons in Hnd as [Hfresh Hnd].
    destruct (Hall name) as [Hacc [d Hd]]; [left|].
    rewrite Hd. simpl. rewrite decide_False by (rewrite Hacc; by intros []).
    apply IH; [done|]. intros n Hn. destruct (Hall n) as [Ha Hs]; [by right|].
    split; [|done]. rewrite lookup_insert_ne; [done|]. by intros ->.
Qed.

(** What a filtered scan is. *)
Lemma filter_scan_inv dscfg radarnr s out :
  filter_scan dscfg radarnr s = Ok out →
  ∃ axis flds,
    filter_axis dscfg s = Some axis
    ∧ out = {| volume_out := Some (with_fields s flds);
               volume_ind_rad := Some radarnr;
               volume_warnings :=
                 missing_fields s (filter.datatype dscfg).*2 |}
    ∧ NoDup (present_fields s (filter.datatype dscfg).*2)
    ∧ (∀ name d, name ∈ (filter.datatype dscfg).*2 →
         psr.fields (spectra.obj s) !! name = Some d →
         field_ready (default 0%Q (filter.filter_width dscfg)) axis
           (spectra.nrays s) d
         ∧ flds !! name
           = Some (zero_Doppler_masked
                     (default 0%Q (filter.filter_width dscfg)) axis
                     (spectra.nrays s) d))
    ∧ (∀ name, name ∉ present_fields s (filter.datatype dscfg).*2 →
         flds !! name = None).
Proof.
  intros H. unfold filter_scan in H.
  apply bind_Ok in H as (axis & Haxis & H).
  apply bind_Ok in H as ([[fields aux] ws] & Hloop & H).
  apply bind_Ok in H as (flds & Hadd & H). injection H as <-.
  apply filter_fields_inv in Hloop as (-> & -> & Hready & Hin & Hout).
  apply add_fields_inv in Hadd as (Hnd & Hadd & Hrest).
  simpl in *. exists axis, flds.
  split.
  { unfold filter_axis, subscript in *.
    destruct (String.eqb _ _);
      [destruct (psr.Doppler_velocity _)|destruct (psr.Doppler_frequency _)];
      by simplify_eq. }
  split; [done|]. split; [done|]. split.
  - intros name d Hn Hd. split; [by eapply Hready|].
    destruct (Hadd name) as (_ & _ & ->).
    + apply elem_of_present_fields. split; [done|by eexists].
    + by apply Hin.
  - intros name Hn. rewrite Hrest by done. apply lookup_empty.
Qed.

Lemma masked_in_band_lookup filter_width (axis_ray cells : list (option Q)) c :
  masked_in_band filter_width axis_ray cells !! c
  = (λ v, if band_at filter_width axis_ray c then None else v)
    <$> cells !! c.
Proof. unfold masked_in_band. apply list_lookup_imap. Qed.

Lemma length_masked_in_band filter_width (axis_ray cells : list (option Q)) :
  length (masked_in_band filter_width axis_ray cells) = length cells.
Proof. unfold masked_in_band. apply length_imap. Qed.

(** The filter, read cell by cell. *)
Lemma zero_Doppler_masked_cell filter_width axis nrays data ray g c :
  cell_at (zero_Doppler_masked filter_width axis nrays data) ray g c
  = (λ v, if filtered filter_width axis nrays ray c then None else v)
    <$> cell_at data ray g c.
Proof.
  unfold cell_at, zero_Doppler_masked, filtered.
  rewrite list_lookup_imap.
  destruct (data !! ray) as [plane|]; [|done]. simpl.
  destruct (axis !! ray) as [axis_ray|].
  - destruct (ray <? nrays); simpl.
    + rewrite list_lookup_fmap.
      destruct (plane !! g) as [cells|]; [|done]. simpl.
      apply masked_in_band_lookup.
    + destruct (plane !! g) as [cells|]; [|done]. simpl.
      by destruct (cells !! c).
  - destruct (plane !! g) as [cells|]; [|done]. simpl.
    by destruct (cells !! c).
Qed.

Lemma zero_Doppler_masked_idemp filter_width axis nrays
    (data : list (list (list (option Q)))) :
  zero_Doppler_masked filter_width axis nrays
    (zero_Doppler_masked filter_width axis nrays data)
  = zero_Doppler_masked filter_width axis nrays data.
Proof.
  unfold zero_Doppler_masked. apply list_eq. intros ray.
  rewrite !list_lookup_imap.
  destruct (data !! ray) as [plane|]; [|done]. simpl. f_equal.
  destruct (axis !! ray) as [axis_ray|]; [|done].
  destruct (ray <? nrays); [|done].
  rewrite <- list_fmap_compose. apply list_fmap_ext. intros _ cells _.
  simpl. apply list_eq. intros c. rewrite !masked_in_band_lookup.
  destruct (cells !! c); [|done]. simpl.
  by destruct (band_at filter_width axis_ray c).
Qed.

Lemma field_ready_masked filter_width axis nrays
    (data : list (list (list (option Q)))) :
  field_ready filter_width axis nrays data →
  field_ready filter_width axis nrays
    (zero_Doppler_masked filter_width axis nrays data).
Proof.
  intros Hready ray Hray.
  destruct (Hready ray Hray) as (axis_ray & plane & Hax & Hpl & Hall).
  exists axis_ray, (masked_in_band filter_width axis_ray <$> plane).
  split; [done|]. split.
  - unfold zero_Doppler_masked. rewrite list_lookup_imap, Hpl. simpl.
    rewrite Hax. by rewrite (proj2 (Nat.ltb_lt _ _) Hray).
  - apply Forall_fmap. eapply Forall_impl; [exact Hall|].
    intros cells Hcells c Hc. simpl.
    rewrite length_masked_in_band. by apply Hcells.
Qed.

Lemma filter_scan_total dscfg radarnr s axis :
  filter_axis dscfg s = Some axis →
  (∀ name d, name ∈ (filter.datatype dscfg).*2 →
     psr.fields (spectra.obj s) !! name = Some d →
     field_ready (default 0%Q (filter.filter_width dscfg)) axis
       (spectra.nrays s) d) →
  NoDup (present_fields s (filter.datatype dscfg).*2) →
  ∃ out, filter_scan dscfg radarnr s = Ok out.
Proof.
  intros Haxis Hready Hnd. unfold filter_scan.
  assert ((if String.eqb (default "m/s" (filter.filter_units dscfg)) "m/s"
           then subscript (psr.Doppler_velocity (spectra.obj s))
           else subscript (psr.Doppler_frequency (spectra.obj s)))
          = Ok axis) as ->.
  { unfold filter_axis in Haxis.
    destruct (String.eqb _ _); by rewrite Haxis. }
  rewrite Ok_bind.
  destruct (filter_fields_total s axis
              (default 0%Q (filter.filter_width dscfg))
              (filter.datatype dscfg).*2 ∅ [] [] Hready)
    as ([[fields aux] ws] & Hloop).
  rewrite Hloop, Ok_bind.
  apply filter_fields_inv in Hloop as (-> & -> & _ & Hin & _).
  destruct (add_fields_total fields
              (present_fields s (filter.datatype dscfg).*2) ∅ Hnd)
    as [flds Hadd].
  - intros name Hn. split; [apply lookup_empty|].
    apply elem_of_present_fields in Hn as [Hn [d Hd]].
    rewrite (Hin name Hn d Hd). by eexists.
  - simpl in *. rewrite Hadd, Ok_bind. eauto.
Qed.

Lemma filter_scan_cells dscfg radarnr s out s' name data' :
  filter_scan dscfg radarnr s = Ok out →
  volume_out out = Some s' →
  psr.fields (spectra.obj s') !! name = Some data' →
  ∃ axis data,
    filter_axis dscfg s = Some axis
    ∧ name ∈ (filter.datatype dscfg).*2
    ∧ psr.fields (spectra.obj s) !! name = Some data
    ∧ length data' = length data
    ∧ ∀ ray g c,
        cell_at data' ray g c
        = (λ v, if filtered (default 0%Q (filter.filter_width dscfg))
                     axis (spectra.nrays s) ray c
                then None else v) <$> cell_at data ray g c.
Proof.
  intros H Hout Hname.
  apply filter_scan_inv in H as (axis & flds & Haxis & -> & _ & Hin & Hrest).
  simpl in Hout. injection Hout as <-. simpl in Hname.
  destruct (decide (name ∈ present_fields s (filter.datatype dscfg).*2))
    as [Hp|Hp]; [|by rewrite Hrest in Hname].
  apply elem_of_present_fields in Hp as [Hn [data Hdata]].
  destruct (Hin name data Hn Hdata) as [_ Hfl].
  rewrite Hfl in Hname. injection Hname as <-.
  exists axis, data. split_and!; try done.
  - unfold zero_Doppler_masked. apply length_imap.
  - intros ray g c. apply zero_Doppler_masked_cell.
Qed.

Lemma filter_scan_selects dscfg radarnr s out :
  filter_scan dscfg radarnr s = Ok out →
  ∃ s',
    volume_out out = Some s'
    ∧ s' = with_fields s (psr.fields (spectra.obj s'))
    ∧ volume_ind_rad out = Some radarnr
    ∧ volume_warnings out = missing_fields s (filter.datatype dscfg).*2
    ∧ NoDup (present_fields s (filter.datatype dscfg).*2)
    ∧ ∀ name,
        is_Some (psr.fields (spectra.obj s') !! name)
        ↔ name ∈ (filter.datatype dscfg).*2
          ∧ is_Some (psr.fields (spectra.obj s) !! name).
Proof.
  intros H.
  apply filter_scan_inv in H as (axis & flds & Haxis & -> & Hnd & Hin & Hrest).
  eexists. split; [reflexivity|]. simpl. split_and!; try done.
  intros name. split.
  - intros Hsome.
    destruct (decide (name ∈ present_fields s (filter.datatype dscfg).*2))
      as [Hp|Hp].
    + by apply elem_of_present_fields.
    + rewrite Hrest in Hsome by done. by destruct Hsome.
  - intros [Hn [d Hd]]. destruct (Hin name d Hn Hd) as [_ ->]. by eexists.
Qed.

Lemma filter_scan_idempotent dscfg radarnr s out s' :
  filter_scan dscfg radarnr s = Ok out →
  volume_out out = Some s' →
  filter_scan dscfg radarnr s' = Ok out.
Proof.
  intros H Hout.
  apply filter_scan_inv in H as (axis & flds & Haxis & -> & Hnd & Hin & Hrest).
  simpl in Hout. injection Hout as <-.
  set (names := (filter.datatype dscfg).*2) in *.
  set (fw := default 0%Q (filter.filter_width dscfg)) in *.
  assert (∀ name, psr.fields (spectra.obj (with_fields s flds)) !! name
                  = flds !! name) as Hflds by done.
  assert (∀ name, name ∈ names →
            is_Some (flds !! name)
            ↔ is_Some (psr.fields (spectra.obj s) !! name)) as Hsame.
  { intros name Hn. split.
    - intros Hsome.
      destruct (decide (name ∈ present_fields s names)) as [Hp|Hp].
      + by apply elem_of_present_fields in Hp as [_ ?].
      + rewrite Hrest in Hsome by done. by destruct Hsome.
    - intros [d Hd]. destruct (Hin name d Hn Hd) as [_ ->]. by eexists. }
  assert (present_fields (with_fields s flds) names = present_fields s names
          ∧ missing_fields (with_fields s flds) names
            = missing_fields s names) as [Hpres Hmiss].
  { unfold present_fields, missing_fields.
    split; apply list_omap_ext, Forall2_same_length_lookup_2; try done;
      intros i x y Hx Hy; assert (x = y) as <- by congruence;
      (assert (x ∈ names) as Hn by (by eapply list_elem_of_lookup_2));
      specialize (Hsame x Hn); rewrite Hflds;
      destruct (flds !! x) eqn:E1,
        (psr.fields (spectra.obj s) !! x) eqn:E2; try done.
    all: exfalso.
    all: try (destruct (proj1 Hsame ltac:(by eexists)); done).
    all: try (destruct (proj2 Hsame ltac:(by eexists)); done). }
  destruct (filter_scan_total dscfg radarnr (with_fields s flds) axis)
    as [out' Hout'].
  - done.
  - intros name d Hn Hd. rewrite Hflds in Hd.
    destruct (proj1 (Hsame name Hn) ltac:(by eexists)) as [d0 Hd0].
    destruct (Hin name d0 Hn Hd0) as [Hready Hfl].
    rewrite Hfl in Hd. injection Hd as <-. by apply field_ready_masked.
  - fold names. by rewrite Hpres.
  - rewrite Hout'. f_equal.
    apply filter_scan_inv in Hout'
      as (axis' & flds' & Haxis' & -> & _ & Hin' & Hrest').
    assert (axis' = axis) as -> by (unfold filter_axis in *; simpl in *; congruence).
    fold names fw in Hin', Hrest'. fold names. rewrite Hmiss.
    assert (flds' = flds) as ->; [|by destruct s as [[]]].
    apply map_eq. intros name.
    destruct (decide (name ∈ present_fields s names)) as [Hp|Hp].
    + apply elem_of_present_fields in Hp as [Hn [d Hd]].
      destruct (Hin name d Hn Hd) as [_ Hfl].
      destruct (Hin' name _ Hn (eq_trans (Hflds name) Hfl)) as [_ ->].
      rewrite Hfl. f_equal. apply zero_Doppler_masked_idemp.
    + rewrite Hrest by done. apply Hrest'. by rewrite Hpres.
Qed.


Lemma in_band_negative filter_width v :
  (filter_width < 0)%Q → in_band filter_width v = false.
Proof.
  intros Hneg. destruct v as [x|]; [|done]. simpl.
  apply andb_false_iff.
  destruct (Qle_bool (- filter_width / 2) x) eqn:H1; [right|by left].
  destruct (Qle_bool x (filter_width / 2)) eqn:H2; [|done].
  apply Qle_bool_iff in H1, H2. exfalso.
  unfold Qdiv in H1, H2. change (/ 2)%Q with (1 # 2)%Q in H1, H2. lra.
Qed.

Lemma in_band_wider w1 w2 v :
  (w1 <= w2)%Q → in_band w1 v = true → in_band w2 v = true.
Proof.
  intros Hle. destruct v as [x|]; [|done]. simpl.
  intros [H1 H2]%andb_prop. apply Qle_bool_iff in H1, H2.
  apply andb_true_intro.
  split; apply Qle_bool_iff; unfold Qdiv in *;
    change (/ 2)%Q with (1 # 2)%Q in *; lra.
Qed.


Lemma filter_scan_negative_width dscfg radarnr s out s' w name data' :
  filter.filter_width dscfg = Some w →
  (w < 0)%Q →
  filter_scan dscfg radarnr s = Ok out →
  volume_out out = Some s' →
  psr.fields (spectra.obj s') !! name = Some data' →
  psr.fields (spectra.obj s) !! name = Some data'.
Proof.
  intros Hw Hneg H Hout Hname.
  apply filter_scan_inv in H as (axis & flds & Haxis & -> & _ & Hin & Hrest).
  simpl in Hout. injection Hout as <-. simpl in Hname.
  destruct (decide (name ∈ present_fields s (filter.datatype dscfg).*2))
    as [Hp|Hp]; [|by rewrite Hrest in Hname].
  apply elem_of_present_fields in Hp as [Hn [data Hdata]].
  destruct (Hin name data Hn Hdata) as [_ Hfl].
  rewrite Hfl in Hname. injection Hname as <-.
  rewrite Hdata. f_equal. rewrite Hw. simpl.
  unfold zero_Doppler_masked. apply list_eq. intros ray.
  rewrite list_lookup_imap.
  destruct (data !! ray) as [plane|]; [|done]. simpl. f_equal.
  destruct (axis !! ray) as [axis_ray|]; [|done].
  destruct (ray <? spectra.nrays s); [|done].
  symmetry. etransitivity; [|apply list_fmap_id].
  apply list_fmap_ext. intros _ cells _. simpl.
  apply list_eq. intros c. rewrite masked_in_band_lookup.
  destruct (cells !! c) as [v|]; [|done]. simpl. f_equal.
  unfold band_at. destruct (axis_ray !! c); [|done].
  by rewrite in_band_negative.
Qed.

Lemma filter_scan_wider dscfg1 dscfg2 radarnr s out1 out2 s1 s2
    name data1 data2 ray g c :
  filter.datatype dscfg1 = filter.datatype dscfg2 →
  filter.filter_units dscfg1 = filter.filter_units dscfg2 →
  (default 0 (filter.filter_width dscfg1)
   <= default 0 (filter.filter_width dscfg2))%Q →
  filter_scan dscfg1 radarnr s = Ok out1 →
  filter_scan dscfg2 radarnr s = Ok out2 →
  volume_out out1 = Some s1 → volume_out out2 = Some s2 →
  psr.fields (spectra.obj s1) !! name = Some data1 →
  psr.fields (spectra.obj s2) !! name = Some data2 →
  cell_at data1 ray g c = Some None →
  cell_at data2 ray g c = Some None.
Proof.
  intros Hdt Hunits Hle H1 H2 Hs1 Hs2 Hd1 Hd2.
  destruct (filter_scan_cells _ _ _ _ _ _ _ H1 Hs1 Hd1)
    as (axis1 & d1 & Hax1 & _ & Hf1 & _ & Hc1).
  destruct (filter_scan_cells _ _ _ _ _ _ _ H2 Hs2 Hd2)
    as (axis2 & d2 & Hax2 & _ & Hf2 & _ & Hc2).
  assert (d2 = d1) as -> by congruence.
  assert (axis2 = axis1) as ->
    by (unfold filter_axis in *; rewrite Hunits in Hax1; congruence).
  rewrite Hc1, Hc2.
  destruct (cell_at d1 ray g c) as [v|]; [|done]. simpl.
  unfold filtered. destruct (axis1 !! ray) as [axis_ray|]; [|done].
  destruct (ray <? spectra.nrays s); [|done]. simpl.
  unfold band_at. destruct (axis_ray !! c) as [x|]; [|done].
  destruct (in_band (default 0%Q (filter.filter_width dscfg1)) x) eqn:E.
  - by rewrite (in_band_wider _ _ _ Hle E).
  - simpl. intros [= ->].
    by destruct (in_band (default 0%Q (filter.filter_width dscfg2)) x).
Qed.

(** ** [process_filter_0Doppler] as a whole *)

Lemma process_filter_0Doppler_on dscfg radars radarnr s :
  last (filter.datatype dscfg).*1 = Some radarnr →
  radars !! radarnr = Some (Some s) →
  process_filter_0Doppler 1 dscfg (Some radars)
  = filter_scan dscfg radarnr s.
Proof.
  intros Hlast Hradar. unfold process_filter_0Doppler.
  destruct (decide (1%Z ≠ 1%Z)) as [Hne|_]; [done|].
  rewrite Hlast. unfold local. rewrite Ok_bind.
  unfold index. by rewrite Hradar, Ok_bind.
Qed.

Lemma process_filter_0Doppler_inv procstatus dscfg radar_list out s' :
  process_filter_0Doppler procstatus dscfg radar_list = Ok out →
  volume_out out = Some s' →
  procstatus = 1%Z
  ∧ ∃ radarnr radars s,
      radar_list = Some radars
      ∧ last (filter.datatype dscfg).*1 = Some radarnr
      ∧ radars !! radarnr = Some (Some s)
      ∧ filter_scan dscfg radarnr s = Ok out.
Proof.
  unfold process_filter_0Doppler. intros H Hout.
  destruct (decide (procstatus ≠ 1%Z)) as [Hne|Heq].
  { injection H as <-. done. }
  split; [by apply dec_stable|].
  destruct (last (filter.datatype dscfg).*1) as [radarnr|]; [|done].
  unfold local in H. rewrite Ok_bind in H.
  destruct radar_list as [radars|]; [|injection H as <-; done].
  unfold index in H.
  destruct (radars !! radarnr) as [[s|]|] eqn:Hradar; try done.
  - rewrite Ok_bind in H. by exists radarnr, radars, s.
  - rewrite Ok_bind in H. injection H as <-. done.
Qed.

(** X9. Which scan the filter works on and which fields it hands back.
    A dataset is handed back only in a processing call (procstatus 1);
    it is the scan of the radar of the last descriptor with its
    dictionary of fields replaced, it holds exactly the requested fields
    that the scan holds, each of them requested once, and one warning is
    issued, in order, for each requested field the scan lacks. *)
Theorem filter_selects_fields procstatus dscfg radar_list out s' :
  process_filter_0Doppler procstatus dscfg radar_list = Ok out →
  volume_out out = Some s' →
  procstatus = 1%Z
  ∧ ∃ radarnr radars s,
      radar_list = Some radars
      ∧ last (filter.datatype dscfg).*1 = Some radarnr
      ∧ radars !! radarnr = Some (Some s)
      ∧ volume_ind_rad out = Some radarnr
      ∧ s' = with_fields s (psr.fields (spectra.obj s'))
      ∧ volume_warnings out = missing_fields s (filter.datatype dscfg).*2
      ∧ NoDup (present_fields s (filter.datatype dscfg).*2)
      ∧ ∀ name,
          is_Some (psr.fields (spectra.obj s') !! name)
          ↔ name ∈ (filter.datatype dscfg).*2
            ∧ is_Some (psr.fields (spectra.obj s) !! name).
Proof.
  intros H Hout.
  destruct (process_filter_0Doppler_inv _ _ _ _ _ H Hout)
    as (-> & radarnr & radars & s & -> & Hlast & Hradar & Hscan).
  split; [done|]. exists radarnr, radars, s.
  destruct (filter_scan_selects _ _ _ _ Hscan)
    as (s0 & Hs0 & ? & ? & ? & ? & ?).
  assert (s0 = s') as -> by congruence. by split_and!.
Qed.

(** X10. What the 0-Doppler filter does to a field. Every field of the
    dataset handed back is the field of that name of the scan with the
    same cells, except that the cell of pulse [c] of every gate of a ray
    below [nrays] is masked when the Doppler axis of that ray holds at
    [c] an unmasked value within [-filter_width/2, filter_width/2]; the
    axis is the velocity axis for the units ['m/s'] and the frequency
    axis otherwise. No value is altered and no cell is unmasked. *)
Theorem zero_Doppler_cells dscfg radars radarnr s out s' name data' :
  last (filter.datatype dscfg).*1 = Some radarnr →
  radars !! radarnr = Some (Some s) →
  process_filter_0Doppler 1 dscfg (Some radars) = Ok out →
  volume_out out = Some s' →
  psr.fields (spectra.obj s') !! name = Some data' →
  ∃ axis data,
    filter_axis dscfg s = Some axis
    ∧ psr.fields (spectra.obj s) !! name = Some data
    ∧ length data' = length data
    ∧ ∀ ray g c,
        cell_at data' ray g c
        = (λ v, if filtered (default 0%Q (filter.filter_width dscfg))
                     axis (spectra.nrays s) ray c
                then None else v) <$> cell_at data ray g c.
Proof.
  intros Hlast Hradar H Hout Hname.
  rewrite (process_filter_0Doppler_on _ _ _ _ Hlast Hradar) in H.
  destruct (filter_scan_cells _ _ _ _ _ _ _ H Hout Hname)
    as (axis & data & ? & _ & ? & ? & ?).
  by exists axis, data.
Qed.

(** X11. The filter is idempotent: with the scan replaced in the list of
    radars by the dataset the filter handed back, the filter hands back
    the same dataset with the same warnings. *)
Theorem filter_idempotent dscfg radars radarnr s out s' :
  last (filter.datatype dscfg).*1 = Some radarnr →
  radars !! radarnr = Some (Some s) →
  process_filter_0Doppler 1 dscfg (Some radars) = Ok out →
  volume_out out = Some s' →
  process_filter_0Doppler 1 dscfg (Some (<[radarnr := Some s']> radars))
  = Ok out.
Proof.
  intros Hlast Hradar H Hout.
  rewrite (process_filter_0Doppler_on _ _ _ _ Hlast Hradar) in H.
  rewrite (process_filter_0Doppler_on _ _ radarnr s' Hlast).
  - by eapply filter_scan_idempotent.
  - apply list_lookup_insert_eq. by eapply lookup_lt_Some.
Qed.


(** X13. A negative filter width filters nothing: every field handed
    back is the field of the scan. *)
Theorem negative_width_keeps_fields dscfg radars radarnr s out s' w
    name data' :
  last (filter.datatype dscfg).*1 = Some radarnr →
  radars !! radarnr = Some (Some s) →
  filter.filter_width dscfg = Some w →
  (w < 0)%Q →
  process_filter_0Doppler 1 dscfg (Some radars) = Ok out →
  volume_out out = Some s' →
  psr.fields (spectra.obj s') !! name = Some data' →
  psr.fields (spectra.obj s) !! name = Some data'.
Proof.
  intros Hlast Hradar Hw Hneg H Hout Hname.
  rewrite (process_filter_0Doppler_on _ _ _ _ Hlast Hradar) in H.
  by eapply filter_scan_negative_width.
Qed.

(** X14. A wider filter masks more. Of two configurations that differ
    in the filter width only, the one with the larger width masks every
    cell the other one masks. *)
Theorem wider_filter_masks_more dscfg1 dscfg2 radars out1 out2 s1 s2
    name data1 data2 ray g c :
  filter.datatype dscfg1 = filter.datatype dscfg2 →
  filter.filter_units dscfg1 = filter.filter_units dscfg2 →
  (default 0 (filter.filter_width dscfg1)
   <= default 0 (filter.filter_width dscfg2))%Q →
  process_filter_0Doppler 1 dscfg1 (Some radars) = Ok out1 →
  process_filter_0Doppler 1 dscfg2 (Some radars) = Ok out2 →
  volume_out out1 = Some s1 → volume_out out2 = Some s2 →
  psr.fields (spectra.obj s1) !! name = Some data1 →
  psr.fields (spectra.obj s2) !! name = Some data2 →
  cell_at data1 ray g c = Some None →
  cell_at data2 ray g c = Some None.
Proof.
  intros Hdt Hunits Hle H1 H2 Hs1 Hs2 Hd1 Hd2.
  destruct (process_filter_0Doppler_inv _ _ _ _ _ H1 Hs1)
    as (_ & nr1 & radars1 & s & [= <-] & Hlast1 & Hradar1 & Hscan1).
  destruct (process_filter_0Doppler_inv _ _ _ _ _ H2 Hs2)
    as (_ & nr2 & radars2 & s0 & [= <-] & Hlast2 & Hradar2 & Hscan2).
  rewrite Hdt in Hlast1.
  assert (nr2 = nr1) as -> by congruence.
  assert (s0 = s) as -> by congruence.
  by eapply (filter_scan_wider dscfg1 dscfg2).
Qed.

(** * The extras on the sample data *)

Module MoreSampleRuns.
Import Sample MoreSamples.

Abbreviation reachable :=
  (reachable pi fn fn fn pair_of triple_of triple_of pair_of).
Abbreviation process_scan :=
  (process_scan pi fn fn fn pair_of triple_of triple_of pair_of).
Abbreviation process_spectra_point :=
  (process_spectra_point pi fn fn fn pair_of triple_of triple_of pair_of).

Example filter_sample :
  volume_warnings filtered_out = [MissingField "sPvv"]
  ∧ psr.fields (spectra.obj filtered_volume) !! "sPhh"
    = Some (replicate 3 (replicate 3 [Some 5%Q; None; Some 5%Q; None])).
Proof. split; reflexivity. Qed.


Lemma unchanged_without_row_witness :
  process_spectra_point 1 antenna_dscfg st2 (Some [Some scan_far])
  = Ok (out_far, st2)
  ∧ new_dataset out_far = None.
Proof.
  assert (process_spectra_point 1 antenna_dscfg st2 (Some [Some scan_far])
          = Ok (out_far, after (call scan_far) antenna_dscfg st2)) as Hcall
    by (vm_compute; reflexivity).
  split; [|reflexivity].
  rewrite (unchanged_without_row pi fn fn fn pair_of triple_of triple_of
             pair_of 1 antenna_dscfg st2 (Some [Some scan_far]) out_far
             (after (call scan_far) antenna_dscfg st2) Hcall
             (λ ds Hds, ltac:(discriminate Hds))) in Hcall.
  exact Hcall.
Defined.

Lemma fixed_values_kept_witness :
  ∃ g', global_data st2 = Some g'
    ∧ antenna_coordinates_az_el_r g' = (10, 5, 5000)%Q
    ∧ poi.range (psr_poi g') = [5000%Q].
Proof.
  epose proof (fixed_values_kept pi fn fn fn pair_of triple_of triple_of
                 pair_of 1 antenna_dscfg st1 _ (Some [Some scan4]) out2 st2
                 (ex_intro _ _ SampleRun.run_st1) eq_refl eq_refl)
    as (g' & Hg' & _ & Hant & Hrange & _).
  exists g'. split_and!; [exact Hg'|exact Hant|exact Hrange].
Defined.

Lemma history_preserved_witness :
  ∃ ds new,
    new_dataset out2 = Some ds
    ∧ poi.time (radar_out ds) = [0; 0]%Q
    ∧ poi.fields (radar_out ds) !! "sPhh" = Some new
    ∧ take 2 <$> take 1 new = [[Some 3%Q; Some 3%Q]].
Proof.
  epose proof (history_preserved pi fn fn fn pair_of triple_of triple_of
                 pair_of antenna_dscfg st1 _ 0 scan4 out2 st2 _
                 (ex_intro _ _ SampleRun.run_st1) eq_refl eq_refl eq_refl)
    as (l & i & j & t & _ & _ & _ & _ & _ & _ & Hfields).
  destruct (Hfields "sPhh" _ eq_refl) as (new & Hnew & _ & Hkept).
  eexists _, new. split_and!.
  - reflexivity.
  - reflexivity.
  - exact Hnew.
  - exact Hkept.
Defined.

Lemma doppler_axis_padding_witness :
  ∃ ds,
    new_dataset out2 = Some ds
    ∧ poi.Doppler_velocity (radar_out ds)
      = Some (grow 4 [[Some 1%Q; Some 1%Q]]
                [Some 1%Q; Some 1%Q; Some 1%Q; Some 1%Q]).
Proof.
  epose proof (doppler_axis_padding pi fn fn fn pair_of triple_of triple_of
                 pair_of antenna_dscfg st1 _ 0 scan4 out2 st2 _
                 (ex_intro _ _ SampleRun.run_st1) eq_refl eq_refl eq_refl)
    as (l & i & j & Hl & Hloc & Hvel & _).
  destruct (Hvel _ eq_refl) as (src & data & Hsrc & Hdata & _ & Haxis & _).
  injection Hsrc as <-.
  assert (i = 1) as ->
    by (vm_compute in Hl; injection Hl as <-;
        vm_compute in Hloc; by injection Hloc as <- _).
  injection Hdata as <-.
  eexists. split; [reflexivity|exact Haxis].
Defined.

Lemma nominal_angles_witness :
  ∃ g, global_data st2 = Some g
    ∧ poi.azimuth (psr_poi g) = [10; 10]%Q
    ∧ poi.elevation (psr_poi g) = [5; 5]%Q.
Proof.
  epose proof (nominal_angles pi fn fn fn pair_of triple_of triple_of
                 pair_of antenna_dscfg st2 _
                 (ex_intro _ _ SampleRun.run_st2) eq_refl)
    as (a & e & r0 & Ha & He & _ & _ & _ & Haz & Hel & _).
  injection Ha as <-. injection He as <-.
  eexists. split_and!; [reflexivity|exact Haz|exact Hel].
Defined.


Lemma lost_doppler_axis_raises_witness :
  process_scan antenna_dscfg st1 0 scan_no_axis = Raise TypeError.
Proof.
  eapply (lost_doppler_axis_raises pi fn fn fn pair_of triple_of triple_of
            pair_of antenna_dscfg st1 _ 0 scan_no_axis point 1 1 7 _
            (ex_intro _ _ SampleRun.run_st1)); reflexivity.
Defined.


Lemma filter_selects_fields_witness :
  ∃ radarnr,
    volume_ind_rad filtered_out = Some radarnr
    ∧ volume_warnings filtered_out
      = missing_fields volume ["sPhh"; "sPvv"]
    ∧ (is_Some (psr.fields (spectra.obj filtered_volume) !! "sPvv")
       ↔ "sPvv" ∈ ["sPhh"; "sPvv"]
         ∧ is_Some (psr.fields (spectra.obj volume) !! "sPvv")).
Proof.
  destruct (filter_selects_fields 1 filter_dscfg (Some [Some volume])
              filtered_out filtered_volume eq_refl eq_refl)
    as (_ & radarnr & radars & s & Hradars & Hlast & Hradar & Hind & _
        & Hws & _ & Hfields).
  injection Hradars as <-. injection Hlast as <-.
  injection Hradar as <-.
  exists 0. split_and!; [exact Hind|exact Hws|exact (Hfields "sPvv")].
Defined.

Lemma zero_Doppler_cells_witness :
  ∃ data',
    psr.fields (spectra.obj filtered_volume) !! "sPhh" = Some data'
    ∧ cell_at data' 0 0 0 = Some (Some 5%Q)
    ∧ cell_at data' 0 0 1 = Some None
    ∧ cell_at data' 0 0 3 = Some None.
Proof.
  epose proof (zero_Doppler_cells filter_dscfg [Some volume] 0 volume
                 filtered_out filtered_volume "sPhh" _
                 eq_refl eq_refl eq_refl eq_refl eq_refl)
    as (axis & data & Haxis & Hdata & _ & Hcells).
  injection Haxis as <-. injection Hdata as <-.
  eexists. split_and!; [reflexivity|..]; by rewrite Hcells.
Defined.

Lemma filter_idempotent_witness :
  process_filter_0Doppler 1 filter_dscfg (Some [Some filtered_volume])
  = Ok filtered_out.
Proof.
  exact (filter_idempotent filter_dscfg [Some volume] 0 volume
           filtered_out filtered_volume eq_refl eq_refl eq_refl eq_refl).
Defined.


Lemma negative_width_keeps_fields_witness :
  ∃ data',
    psr.fields (spectra.obj negative_volume) !! "sPhh" = Some data'
    ∧ psr.fields (spectra.obj volume) !! "sPhh" = Some data'.
Proof.
  eexists. split; [reflexivity|].
  exact (negative_width_keeps_fields negative_dscfg [Some volume] 0 volume
           negative_out negative_volume (-1) "sPhh" _
           eq_refl eq_refl eq_refl eq_refl eq_refl eq_refl eq_refl).
Defined.

Lemma wider_filter_masks_more_witness :
  ∃ data1 data2,
    psr.fields (spectra.obj narrow_volume) !! "sPhh" = Some data1
    ∧ psr.fields (spectra.obj filtered_volume) !! "sPhh" = Some data2
    ∧ cell_at data1 2 1 1 = Some None
    ∧ cell_at data2 2 1 1 = Some None.
Proof.
  eexists _, _. split_and!; [reflexivity|reflexivity|reflexivity|].
  eapply (wider_filter_masks_more narrow_dscfg filter_dscfg [Some volume]
            narrow_out filtered_out narrow_volume filtered_volume "sPhh"
            _ _ 2 1 1); try reflexivity.
  vm_compute. discriminate.
Defined.

End MoreSampleRuns.
